(** * Work journal: entry store, import reconciler, CSV adapter, compilation

    A shallow embedding of the data layer of the journal application:

    - [src/hooks/useJournal.ts]: the [useJournal] hook (add, delete, update,
      import, compile, and the date-descending sort done at every render);
    - the [Settings] component's [parseCSV];
    - the [JournalEditor] form: its submit button and the duplication of an
      entry;
    - [formatTicketNumber] of the two forms;
    - the [JournalList] component: the ticket counts, the compile button and
      the editing of a card;
    - [src/services/geminiService.ts]: [buildPrompt];
    - [types.ts]: the [JournalEntry] record.

    Conventions.  A JavaScript string is a Rocq [string]; its characters are
    the code units 0..255.  A number that only ever holds an integer (a time
    value, an index) is a [Z] or a [nat]; [NaN] is [None].  The clock and
    [Math.random] are read from an explicit [World]. *)

From Stdlib Require Import ZArith List String Ascii Lia Permutation Sorted Bool.
From stdpp Require Import gmap strings.
Import ListNotations.

Local Open Scope string_scope.
Local Open Scope Z_scope.

(* ================================================================== *)
(** * JavaScript strings *)
(* ================================================================== *)

Module JsString.

Definition code (c : ascii) : Z := Z.of_N (N_of_ascii c).

(** [\d] *)
Definition isDigit (c : ascii) : bool := (48 <=? code c) && (code c <=? 57).

(** [\s], and the characters [trim] removes: TAB, LF, VT, FF, CR, SP, NBSP
    (the white space and line terminators below code unit 256). *)
Definition isWhiteSpace (c : ascii) : bool :=
  ((9 <=? code c) && (code c <=? 13)) || (code c =? 32) || (code c =? 160).

Fixpoint trimStart (s : string) : string :=
  match s with
  | String c s' => if isWhiteSpace c then trimStart s' else s
  | EmptyString => EmptyString
  end.

Fixpoint trimEnd (s : string) : string :=
  match s with
  | String c s' =>
      match trimEnd s' with
      | EmptyString => if isWhiteSpace c then EmptyString else String c EmptyString
      | t => String c t
      end
  | EmptyString => EmptyString
  end.

Definition trim (s : string) : string := trimEnd (trimStart s).

(** A string is truthy when it is not empty. *)
Definition truthy (s : string) : bool :=
  match s with EmptyString => false | String _ _ => true end.

Definition lowerChar (c : ascii) : ascii :=
  let n := code c in
  if ((65 <=? n) && (n <=? 90))
     || ((192 <=? n) && (n <=? 222) && negb (n =? 215))
  then ascii_of_N (Z.to_N (n + 32)) else c.

Fixpoint toLowerCase (s : string) : string :=
  match s with
  | String c s' => String (lowerChar c) (toLowerCase s')
  | EmptyString => EmptyString
  end.

Fixpoint startsWith (p s : string) : bool :=
  match p, s with
  | EmptyString, _ => true
  | String a p', String b s' => if Ascii.eqb a b then startsWith p' s' else false
  | String _ _, EmptyString => false
  end.

(** [s.includes(sub)] *)
Fixpoint includes (s sub : string) : bool :=
  startsWith sub s
  || match s with
     | String _ s' => includes s' sub
     | EmptyString => false
     end.

(** [s.replace(/[...]/g, '')] for a character class: the characters of the
    class are deleted. *)
Fixpoint removeAll (cls : ascii -> bool) (s : string) : string :=
  match s with
  | String c s' => if cls c then removeAll cls s' else String c (removeAll cls s')
  | EmptyString => EmptyString
  end.

(** [parts.join(sep)] *)
Fixpoint join (sep : string) (parts : list string) : string :=
  match parts with
  | [] => ""
  | [p] => p
  | p :: ps => p +:+ sep +:+ join sep ps
  end.

(** [text.split(/\r?\n/)]: a line ends at LF, or at CR immediately followed
    by LF; [cur] is the line being read. *)
Fixpoint splitLines (cur s : string) : list string :=
  match s with
  | EmptyString => [cur]
  | String c s' =>
      if Ascii.eqb c "010" then cur :: splitLines "" s'
      else
        match s' with
        | String d s'' =>
            if Ascii.eqb c "013" && Ascii.eqb d "010"
            then cur :: splitLines "" s''
            else splitLines (cur +:+ String c "") s'
        | EmptyString => splitLines (cur +:+ String c "") s'
        end
  end.

End JsString.

(* ================================================================== *)
(** * Regular expressions *)
(* ================================================================== *)

(** The fragment of the regular-expression language the sources use, with the
    backtracking, greedy, leftmost semantics of [String.prototype.match]. *)
Module RegExp.

Inductive re : Type :=
| Eps                              (* the empty expression *)
| Chr (cls : ascii -> bool)        (* one character of a class *)
| Seq (r1 r2 : re)                 (* r1 r2 *)
| Opt (r : re)                     (* r?, greedy *)
| Rep (min : nat) (r : re).        (* r{min,}, greedy: r* is Rep 0, r+ is Rep 1 *)

(** [matchk r s k] matches [r] at the start of [s] and hands what is left
    to the continuation [k]; the first success in backtracking order is
    returned.  The result is the text left after the whole match. *)
Fixpoint matchk (r : re) (s : string) (k : string -> option string)
  {struct r} : option string :=
  match r with
  | Eps => k s
  | Chr cls =>
      match s with
      | String c s' => if cls c then k s' else None
      | EmptyString => None
      end
  | Seq r1 r2 => matchk r1 s (fun s' => matchk r2 s' k)
  | Opt r1 =>
      match matchk r1 s k with
      | Some rest => Some rest
      | None => k s
      end
  | Rep min r1 =>
      (fix rep (fuel : nat) (min : nat) (s : string) {struct fuel} : option string :=
         let stop := match min with O => k s | S _ => None end in
         match fuel with
         | O => stop
         | S fuel' =>
             match matchk r1 s (fun s' => rep fuel' (Nat.pred min) s') with
             | Some rest => Some rest
             | None => stop
             end
         end) (String.length s) min s
  end.

(** The text matched at the start of [s], if any. *)
Definition matchAt (r : re) (s : string) : option string :=
  match matchk r s Some with
  | Some rest => Some (String.substring 0 (String.length s - String.length rest) s)
  | None => None
  end.

(** [s.match(r)[0]] for a regular expression without the [g] flag: the
    leftmost match, [None] for [null]. *)
Fixpoint exec (r : re) (s : string) : option string :=
  match matchAt r s with
  | Some m => Some m
  | None =>
      match s with
      | String _ s' => exec r s'
      | EmptyString => None
      end
  end.

(** The expressions of a list, one after the other. *)
Definition cat (rs : list re) : re := List.fold_right Seq Eps rs.

Definition lit (c : ascii) : re := Chr (Ascii.eqb c).
(** A letter under the [i] flag. *)
Definition liti (c : ascii) : re :=
  Chr (fun x => Ascii.eqb (JsString.lowerChar x) (JsString.lowerChar c)).
Definition digit : re := Chr JsString.isDigit.
Definition space : re := Chr JsString.isWhiteSpace.
Definition digitOrSpace : re :=
  Chr (fun c => JsString.isDigit c || JsString.isWhiteSpace c).

End RegExp.

(* ================================================================== *)
(** * Dates *)
(* ================================================================== *)

(** Time values are milliseconds since 1970-01-01T00:00:00Z, as integers; an
    invalid date ([NaN]) is [None].  The day and year arithmetic is the one of
    the language standard. *)
Module JsDate.

Definition msPerDay : Z := 86400000.

Definition DayFromYear (y : Z) : Z :=
  365 * (y - 1970) + (y - 1969) / 4 - (y - 1901) / 100 + (y - 1601) / 400.

Definition InLeapYear (y : Z) : bool :=
  ((y mod 4 =? 0) && negb (y mod 100 =? 0)) || (y mod 400 =? 0).

(** The largest [y] with [DayFromYear y <= d]. *)
Definition YearFromDay (d : Z) : Z :=
  let y := 1970 + d * 400 / 146097 in
  if DayFromYear (y + 1) <=? d then y + 1
  else if DayFromYear y <=? d then y
  else y - 1.

Definition monthLengths (leap : bool) : list Z :=
  [31; if leap then 29 else 28; 31; 30; 31; 30; 31; 31; 30; 31; 30; 31].

(** Month (from 0) and day of the month (from 1) of the [d]-th day (from 0)
    of a year; [m] counts the months already passed. *)
Fixpoint monthAndDay (lens : list Z) (m : nat) (d : Z) : nat * Z :=
  match lens with
  | [] => (m, d + 1)
  | len :: lens' => if d <? len then (m, d + 1) else monthAndDay lens' (S m) (d - len)
  end.

Fixpoint daysBefore (lens : list Z) (m : nat) : Z :=
  match m, lens with
  | S m', len :: lens' => len + daysBefore lens' m'
  | _, _ => 0
  end.

(** [MakeDay], for a month 1..12 and a day of the month from 1. *)
Definition MakeDay (y m d : Z) : Z :=
  DayFromYear y + daysBefore (monthLengths (InLeapYear y)) (Z.to_nat (m - 1)) + (d - 1).

Definition MakeDate (day time : Z) : Z := day * msPerDay + time.

Definition digitChar (n : Z) : ascii := ascii_of_N (Z.to_N (48 + n)).

(** [n] written with [k] decimal digits. *)
Fixpoint pad (k : nat) (n : Z) : string :=
  match k with
  | O => ""
  | S k' => pad k' (n / 10) +:+ String (digitChar (n mod 10)) ""
  end.

(** The year as [toISOString] writes it: four digits, or a sign and six
    digits outside 0..9999. *)
Definition yearText (y : Z) : string :=
  if (0 <=? y) && (y <=? 9999) then pad 4 y
  else if y <? 0 then "-" +:+ pad 6 (- y) else "+" +:+ pad 6 y.

(** [toISOString] of a valid time value: [YYYY-MM-DDTHH:mm:ss.sssZ]. *)
Definition toISOString (t : Z) : string :=
  let day := t / msPerDay in
  let ms := t mod msPerDay in
  let y := YearFromDay day in
  let '(m, d) := monthAndDay (monthLengths (InLeapYear y)) 0 (day - DayFromYear y) in
  yearText y +:+ "-" +:+ pad 2 (Z.of_nat m + 1) +:+ "-" +:+ pad 2 d +:+ "T"
    +:+ pad 2 (ms / 3600000) +:+ ":" +:+ pad 2 (ms / 60000 mod 60) +:+ ":"
    +:+ pad 2 (ms / 1000 mod 60) +:+ "." +:+ pad 3 (ms mod 1000) +:+ "Z".

(** ** Reading the standard's date-time format *)

(** [k] decimal digits at the start of [s]. *)
Fixpoint number (k : nat) (acc : Z) (s : string) : option (Z * string) :=
  match k with
  | O => Some (acc, s)
  | S k' =>
      match s with
      | String c s' =>
          if JsString.isDigit c then number k' (10 * acc + (JsString.code c - 48)) s'
          else None
      | EmptyString => None
      end
  end.

Definition expect (c : ascii) (s : string) : option string :=
  match s with
  | String d s' => if Ascii.eqb c d then Some s' else None
  | EmptyString => None
  end.

(** The year: four digits, or a sign and six digits; minus zero is not a
    year. *)
Definition yearField (s : string) : option (Z * string) :=
  match expect "+" s with
  | Some s' => number 6 0 s'
  | None =>
      match expect "-" s with
      | Some s' => '(y, s'') ← number 6 0 s'; if y =? 0 then None else Some (- y, s'')
      | None => number 4 0 s
      end
  end.

(** [-NN] if present, else the default 1. *)
Definition dashField (s : string) : option (Z * string) :=
  match expect "-" s with
  | Some s' => number 2 0 s'
  | None => Some (1, s)
  end.

(** [HH:mm:ss] or [HH:mm:ss.sss], then [Z], then the end of the string:
    the milliseconds since the start of the day. *)
Definition utcTime (s : string) : option Z :=
  '(hh, s) ← number 2 0 s;
  s ← expect ":" s;
  '(mm, s) ← number 2 0 s;
  s ← expect ":" s;
  '(ss, s) ← number 2 0 s;
  '(ms, s) ← match expect "." s with
             | Some s' => number 3 0 s'
             | None => Some (0, s)
             end;
  s ← expect "Z" s;
  if JsString.truthy s then None
  else if (hh <=? 23) && (mm <=? 59) && (ss <=? 59)
       then Some (hh * 3600000 + mm * 60000 + ss * 1000 + ms)
       else None.

(** The least and the greatest time value a date can hold. *)
Definition minTime : Z := -8640000000000000.
Definition maxTime : Z := 8640000000000000.

(** A time value out of range is no date. *)
Definition TimeClip (t : Z) : option Z :=
  if (minTime <=? t) && (t <=? maxTime) then Some t else None.

(** The forms of the standard's format whose meaning does not depend on the
    host: a date alone ([YYYY], [YYYY-MM], [YYYY-MM-DD]) is UTC midnight,
    and a date followed by [T], a time and [Z] is UTC.  [None]: the string
    is not of these forms. *)
Definition parseISO (s : string) : option Z :=
  '(y, s) ← yearField s;
  '(m, s) ← dashField s;
  '(d, s) ← dashField s;
  if (1 <=? m) && (m <=? 12) && (1 <=? d)
     && (d <=? nth (Z.to_nat (m - 1)) (monthLengths (InLeapYear y)) 0)
  then
    match s with
    | EmptyString => TimeClip (MakeDate (MakeDay y m d) 0)
    | String c s' =>
        if Ascii.eqb c "T"
        then t ← utcTime s'; TimeClip (MakeDate (MakeDay y m d) t)
        else None
    end
  else None.

(** [new Date(s).getTime()].  Strings of the standard's format are read as
    the standard says; for every other string the standard leaves the
    result to the host, which is the parameter [host]. *)
Definition parse (host : string -> option Z) (s : string) : option Z :=
  match parseISO s with
  | Some t => Some t
  | None => host s
  end.

End JsDate.

(* ================================================================== *)
(** * The world: clock and random source *)
(* ================================================================== *)

(** [clock w n] is the time value the [n]-th coming [new Date()] returns,
    [random w n] the text of the [n]-th coming [Math.random()] as it appears
    when appended to a string. *)
Record World : Type := { clock : nat -> Z; random : nat -> string }.

Definition M (A : Type) : Type := World -> A * World.

#[global] Instance M_ret : MRet M := fun A (a : A) (w : World) => (a, w).
#[global] Instance M_bind : MBind M :=
  fun A B (f : A -> M B) (m : M A) (w : World) => let '(a, w') := m w in f a w'.

(** [new Date().getTime()] *)
Definition newDate : M Z :=
  fun w => (clock w 0%nat, {| clock := fun n => clock w (S n); random := random w |}).

(** [Math.random()] *)
Definition Math_random : M string :=
  fun w => (random w 0%nat, {| clock := clock w; random := fun n => random w (S n) |}).

(** [new Date().toISOString() + Math.random()] *)
Definition freshId : M string :=
  t ← newDate;
  r ← Math_random;
  mret (JsDate.toISOString t +:+ r).

(** [new Date().toISOString()] *)
Definition nowISO : M string :=
  t ← newDate;
  mret (JsDate.toISOString t).

(* ================================================================== *)
(** * Entries *)
(* ================================================================== *)

(** [types.ts]: an optional field is an [option]. *)
Record JournalEntry : Type := {
  id : string;
  content : string;
  date : string;
  ticketNumber : option string;
  imageUrl : option string
}.

(** [Omit<JournalEntry, 'id' | 'date'>] *)
Record NewEntryPayload : Type := {
  newContent : string;
  newTicketNumber : option string;
  newImageUrl : option string
}.

(** [Partial<Omit<JournalEntry, 'id'>>].  [None] is a key that is absent; for
    the two optional fields a present key may hold [undefined], which is
    [Some None]. *)
Record UpdateEntryPayload : Type := {
  updContent : option string;
  updDate : option string;
  updTicketNumber : option (option string);
  updImageUrl : option (option string)
}.

Definition LF : string := String "010" "".

(* ================================================================== *)
(** * Arrays *)
(* ================================================================== *)

Module JsArray.

Section Sort.
Context {A : Type}.
(** The comparator; [None] is a [NaN] result. *)
Variable compareFn : A -> A -> option Z.

(** [x] has to come after [y]: the comparator's result is positive.  A
    [NaN] counts as [+0].  The comparators of this program subtract two
    integer time values, and the sign of the rounded difference is the
    sign of the exact one. *)
Definition comesAfter (x y : A) : bool :=
  match compareFn x y with
  | Some v => 0 <? v
  | None => false
  end.

Fixpoint insert (x : A) (l : list A) : list A :=
  match l with
  | [] => [x]
  | y :: l' => if comesAfter x y then y :: insert x l' else x :: l
  end.

(** [array.sort(compareFn)], a stable sort.  Where the comparator is
    consistent, as it is on entries whose dates can be read, the result is
    the same for every stable sort ([SortFacts.sort_unique]).  Where the
    comparator returns [NaN] the standard leaves the order to the engine:
    this function then gives the order of an insertion from the right,
    which is one order among those an engine may give and not the order of
    every engine.  What is stated about the order of a snapshot is
    therefore stated for dates that can be read; the examples with a date
    that cannot be read are arrays in which no comparison of two neighbours
    asks for a move, which a sort that first looks for a sorted run leaves
    as they are. *)
Fixpoint sort (l : list A) : list A :=
  match l with
  | [] => []
  | x :: l' => insert x (sort l')
  end.
End Sort.

(** [array.findIndex(p)]; [None] is [-1]. *)
Fixpoint findIndex {A : Type} (p : A -> bool) (l : list A) : option nat :=
  match l with
  | [] => None
  | x :: l' => if p x then Some O else option_map S (findIndex p l')
  end.

End JsArray.

(** [x - y] on numbers that may be [NaN]. *)
Definition minus (x y : option Z) : option Z :=
  match x, y with
  | Some a, Some b => Some (a - b)
  | _, _ => None
  end.

(* ================================================================== *)
(** * The [useJournal] hook *)
(* ================================================================== *)

Section UseJournal.

(** What [new Date(s)] makes of a string outside the standard's format. *)
Variable host : string -> option Z.
(** [toLocaleString('en-US', ...)] of a date, which depends on the locale
    data and the time zone of the host. *)
Variable toLocaleString : option Z -> string.

(** [new Date(e.date).getTime()] *)
Definition getTime (e : JournalEntry) : option Z := JsDate.parse host (date e).

(** [(a, b) => new Date(b.date).getTime() - new Date(a.date).getTime()] *)
Definition newestFirst (a b : JournalEntry) : option Z := minus (getTime b) (getTime a).

(** [(a, b) => new Date(a.date).getTime() - new Date(b.date).getTime()] *)
Definition oldestFirst (a b : JournalEntry) : option Z := minus (getTime a) (getTime b).

(** The sort of the render: [entries.sort(...)], in place. *)
Definition sortedEntries (l : list JournalEntry) : list JournalEntry :=
  JsArray.sort newestFirst l.

(** ** [addEntry] *)

(** The array handed to [setEntries], or [None] when the function returns
    without a state update. *)
Definition addEntry (payload : NewEntryPayload) (prevEntries : list JournalEntry)
  : M (option (list JournalEntry)) :=
  if negb (JsString.truthy (JsString.trim (newContent payload))) then mret None
  else
    i ← freshId;
    d ← nowISO;
    let newEntry :=
      {| id := i; date := d; content := newContent payload;
         ticketNumber := newTicketNumber payload; imageUrl := newImageUrl payload |} in
    mret (Some (newEntry :: prevEntries)).

(** ** [deleteEntry] *)

Definition deleteEntry (i : string) (prevEntries : list JournalEntry) : list JournalEntry :=
  List.filter (fun entry => negb (String.eqb (id entry) i)) prevEntries.

(** ** [updateEntry] *)

(** [{ ...entry, ...payload }] *)
Definition merge (entry : JournalEntry) (payload : UpdateEntryPayload) : JournalEntry :=
  {| id := id entry;
     content := default (content entry) (updContent payload);
     date := default (date entry) (updDate payload);
     ticketNumber := default (ticketNumber entry) (updTicketNumber payload);
     imageUrl := default (imageUrl entry) (updImageUrl payload) |}.

Definition updateEntry (i : string) (payload : UpdateEntryPayload)
  (prevEntries : list JournalEntry) : list JournalEntry :=
  List.map (fun entry => if String.eqb (id entry) i then merge entry payload else entry)
    prevEntries.

(** ** [importEntries] *)

(** [`${e.date}-${e.content}`] *)
Definition signature (e : JournalEntry) : string := date e +:+ "-" +:+ content e.

(** The [filter] over the imported entries; [existingSignatures] is the
    [Set] the callback reads and extends. *)
Fixpoint uniqueNewEntries (existingSignatures : gset string)
  (importedEntries : list JournalEntry) : list JournalEntry :=
  match importedEntries with
  | [] => []
  | entry :: rest =>
      if bool_decide (signature entry ∈ existingSignatures)
      then uniqueNewEntries existingSignatures rest
      else entry :: uniqueNewEntries ({[signature entry]} ∪ existingSignatures) rest
  end.

(** [{ ...e, id: e.id || (new Date().toISOString() + Math.random()) }] *)
Definition sanitize (e : JournalEntry) : M JournalEntry :=
  if JsString.truthy (id e) then mret e
  else
    i ← freshId;
    mret {| id := i; content := content e; date := date e;
            ticketNumber := ticketNumber e; imageUrl := imageUrl e |}.

Fixpoint sanitizedNewEntries (l : list JournalEntry) : M (list JournalEntry) :=
  match l with
  | [] => mret []
  | e :: l' =>
      e' ← sanitize e;
      l'' ← sanitizedNewEntries l';
      mret (e' :: l'')
  end.

Definition importEntries (importedEntries prevEntries : list JournalEntry)
  : M (list JournalEntry) :=
  let existingSignatures : gset string := list_to_set (List.map signature prevEntries) in
  new ← sanitizedNewEntries (uniqueNewEntries existingSignatures importedEntries);
  mret (JsArray.sort newestFirst (new ++ prevEntries)).

(** ** [compileEntriesByTicketNumber] *)

Definition hasTicket (t : string) (e : JournalEntry) : bool :=
  match ticketNumber e with
  | Some t' => String.eqb t' t
  | None => false
  end.

(** [`--- Entry from ${entryDate} ---\n${entry.content}`] *)
Definition block (entry : JournalEntry) : string :=
  "--- Entry from " +:+ toLocaleString (getTime entry) +:+ " ---" +:+ LF +:+ content entry.

Definition compiledContent (entriesToCompile : list JournalEntry) : string :=
  JsString.join (LF +:+ LF) (List.map block entriesToCompile).

(** The array handed to [setEntries], or [None] when the function returns
    without a state update. *)
Definition compileEntriesByTicketNumber (t : string) (entries : list JournalEntry)
  : M (option (list JournalEntry)) :=
  let entriesToCompile := List.filter (hasTicket t) entries in
  if (length entriesToCompile <? 2)%nat then mret None
  else
    let entriesToCompile := JsArray.sort oldestFirst entriesToCompile in
    match last entriesToCompile with
    | None => mret None
    | Some newestEntry =>
        i ← freshId;
        let compiledEntry :=
          {| id := i; date := date newestEntry;
             content := compiledContent entriesToCompile;
             ticketNumber := Some t; imageUrl := imageUrl newestEntry |} in
        let remainingEntries := List.filter (fun e => negb (hasTicket t e)) entries in
        mret (Some (compiledEntry :: remainingEntries))
    end.

(** ** The hook as a state machine *)

(** [working] is the array as the last state update (or the initial state)
    gave it; [entries] is that array once the render has sorted it in place,
    which is both what the hook returns to its readers and what the next
    operation finds as the current state. *)
Record Hook : Type := { working : list JournalEntry; entries : list JournalEntry }.

Definition render (l : list JournalEntry) : Hook :=
  {| working := l; entries := sortedEntries l |}.

(** The first render, from the stored or the initial entries. *)
Definition mount (initial : list JournalEntry) : Hook := render initial.

Inductive Op : Type :=
| Add (payload : NewEntryPayload)
| Delete (i : string)
| Update (i : string) (payload : UpdateEntryPayload)
| Import (importedEntries : list JournalEntry)
| Compile (t : string).

(** The state update an operation asks for, if any. *)
Definition setEntries (op : Op) (prevEntries : list JournalEntry)
  : M (option (list JournalEntry)) :=
  match op with
  | Add payload => addEntry payload prevEntries
  | Delete i => mret (Some (deleteEntry i prevEntries))
  | Update i payload => mret (Some (updateEntry i payload prevEntries))
  | Import importedEntries => l ← importEntries importedEntries prevEntries; mret (Some l)
  | Compile t => compileEntriesByTicketNumber t prevEntries
  end.

(** One operation followed by the render it causes; without a state update
    there is no render and nothing changes. *)
Definition step (op : Op) (h : Hook) : M Hook :=
  r ← setEntries op (entries h);
  mret (match r with
        | Some l => render l
        | None => h
        end).

Fixpoint run (ops : list Op) (h : Hook) : M Hook :=
  match ops with
  | [] => mret h
  | op :: ops' => h' ← step op h; run ops' h'
  end.

End UseJournal.


(* ================================================================== *)
(** * Vocabulary of the properties *)
(* ================================================================== *)

(** [w'] is [w] after some reads of the clock and of the random source. *)
Definition advances (w w' : World) : Prop :=
  exists k, forall n, clock w' n = clock w (k + n)%nat.

(** Every reading of the clock is a time value a date can hold. *)
Definition validClock (w : World) : Prop :=
  forall n, JsDate.minTime <= clock w n <= JsDate.maxTime.

(** A computation that only consumes readings. *)
Definition monotone {A : Type} (m : M A) : Prop := forall w, advances w (snd (m w)).

Section Vocabulary.

Variable host : string -> option Z.

(** The date of the entry can be read. *)
Definition wellDated (e : JournalEntry) : Prop := is_Some (getTime host e).

Definition timeOf (e : JournalEntry) : Z := default 0 (getTime host e).

(** [a] is not older than [b]; an entry whose date cannot be read is not
    compared. *)
Definition notOlder (a b : JournalEntry) : Prop :=
  forall ta tb, getTime host a = Some ta -> getTime host b = Some tb -> tb <= ta.

(** Sorted by date, the most recent first. *)
Definition sortedDescending (l : list JournalEntry) : Prop := StronglySorted notOlder l.

(** Sorted by date, the oldest first. *)
Definition sortedAscending (l : list JournalEntry) : Prop :=
  StronglySorted (fun a b => notOlder b a) l.

(** The entries whose date is the instant [t]. *)
Definition atTime (t : Z) (e : JournalEntry) : bool :=
  match getTime host e with
  | Some t' => t' =? t
  | None => false
  end.


(** The dates an operation brings in can be read. *)
Definition wellDatedOp (op : Op) : Prop :=
  match op with
  | Update _ payload =>
      match updDate payload with
      | Some d => is_Some (JsDate.parse host d)
      | None => True
      end
  | Import importedEntries => Forall wellDated importedEntries
  | Add _ | Delete _ | Compile _ => True
  end.

(** The state the hook is in between two operations, when its dates can be
    read. *)
Definition rendered (h : Hook) : Prop :=
  Forall wellDated (working h) /\ entries h = sortedEntries host (working h).

(** [e] is one of [sources], its date can be read, and none of them is more
    recent. *)
Definition latestOf (sources : list JournalEntry) (e : JournalEntry) : Prop :=
  In e sources /\ wellDated e /\ forall e', In e' sources -> notOlder e e'.

Variable toLocaleString : option Z -> string.

(** The entry [compileEntriesByTicketNumber] builds from the sorted sources
    and their last element. *)
Definition compiledFrom (t : string) (sorted : list JournalEntry)
  (newest : JournalEntry) (w : World) : JournalEntry :=
  {| id := JsDate.toISOString (clock w 0%nat) +:+ random w 0%nat;
     content := compiledContent host toLocaleString sorted;
     date := date newest;
     ticketNumber := Some t;
     imageUrl := imageUrl newest |}.

End Vocabulary.


(** The payload [{ date: d }]. *)
Definition dateOnly (d : string) : UpdateEntryPayload :=
  {| updContent := None; updDate := Some d; updTicketNumber := None; updImageUrl := None |}.

(** A sanitized entry differs from its source at most in the [id]. *)
Definition sameButId (e e' : JournalEntry) : Prop :=
  content e' = content e /\ date e' = date e
  /\ ticketNumber e' = ticketNumber e /\ imageUrl e' = imageUrl e.

(** [parts] occur in [s] one after the other, in this order and without
    overlap. *)
Inductive containsInOrder : list string -> string -> Prop :=
| containsNone (s : string) : containsInOrder [] s
| containsNext (before part rest : string) (parts : list string) :
    containsInOrder parts rest ->
    containsInOrder (part :: parts) (before +:+ part +:+ rest).

(* ================================================================== *)
(** * The CSV adapter: [parseCSV] of the [Settings] component *)
(* ================================================================== *)

(** What a call does: it returns a value or it throws. *)
Inductive outcome (A : Type) : Type :=
| Returns (a : A)
| Throws (error : string).
Arguments Returns {A} a.
Arguments Throws {A} error.

Section ParseCSV.

Variable host : string -> option Z.

Definition DQUOTE : ascii := "034".
Definition QUOTE : ascii := "039".

(** The loop of [parseLine]: [current] and [inQuotes] are its variables,
    the fields pushed so far are in front of the result. *)
Fixpoint parseLineFrom (line current : string) (inQuotes : bool) : list string :=
  match line with
  | EmptyString => [current]
  | String char rest =>
      if Ascii.eqb char DQUOTE then
        match rest with
        | String next rest' =>
            if inQuotes && Ascii.eqb next DQUOTE
            then parseLineFrom rest' (current +:+ String DQUOTE "") inQuotes
            else parseLineFrom rest current (negb inQuotes)
        | EmptyString => parseLineFrom rest current (negb inQuotes)
        end
      else if Ascii.eqb char "," && negb inQuotes
           then current :: parseLineFrom rest "" inQuotes
           else parseLineFrom rest (current +:+ String char "") inQuotes
  end.

Definition parseLine (line : string) : list string := parseLineFrom line "" false.

(** [h.trim().toLowerCase()] without its quote characters of either kind,
    as the [replace] over the class of the two quotes leaves it. *)
Definition header (h : string) : string :=
  JsString.removeAll (fun c => Ascii.eqb c QUOTE || Ascii.eqb c DQUOTE)
    (JsString.toLowerCase (JsString.trim h)).

Definition isDateHeader (h : string) : bool :=
  JsString.includes h "date" || JsString.includes h "created".
Definition isTextHeader (h : string) : bool :=
  String.eqb h "entry_text" || String.eqb h "text" || String.eqb h "content"
  || String.eqb h "note".
Definition isTagsHeader (h : string) : bool :=
  JsString.includes h "tags" || JsString.includes h "label".

(** [/\d[\d\s]{5,}\d/] *)
Definition ticketInTags : RegExp.re :=
  RegExp.cat [RegExp.digit; RegExp.Rep 5 RegExp.digitOrSpace; RegExp.digit].

(** [/Ticket:?\s*(#?[\d\s]+)/i] *)
Definition ticketInContent : RegExp.re :=
  RegExp.cat [RegExp.liti "T"; RegExp.liti "i"; RegExp.liti "c"; RegExp.liti "k";
              RegExp.liti "e"; RegExp.liti "t";
              RegExp.Opt (RegExp.lit ":"); RegExp.Rep 0 RegExp.space;
              RegExp.Opt (RegExp.lit "#"); RegExp.Rep 1 RegExp.digitOrSpace].

(** [tags.match(...) || content.match(...)]: the text of the match, [None]
    for [null].  Calling [match] on [undefined] throws. *)
Definition ticketMatch (tags content : option string) : outcome (option string) :=
  match tags with
  | None => Throws "TypeError"
  | Some tags =>
      match RegExp.exec ticketInTags tags with
      | Some m => Returns (Some m)
      | None =>
          match content with
          | None => Throws "TypeError"
          | Some content => Returns (RegExp.exec ticketInContent content)
          end
      end
  end.

(** [ticketMatch[0].replace(/[^\d\s]/g, '').trim()] *)
Definition cleanTicket (m : string) : string :=
  JsString.trim
    (JsString.removeAll (fun c => negb (JsString.isDigit c || JsString.isWhiteSpace c)) m).

(** The [replace] that cleans the content, first step: a double quote at
    the very start and a double quote at the very end are deleted. *)
Definition stripQuotes (s : string) : string :=
  let s1 := match s with
            | String c s' => if Ascii.eqb c DQUOTE then s' else s
            | EmptyString => s
            end in
  match String.rev s1 with
  | String c r => if Ascii.eqb c DQUOTE then String.rev r else s1
  | EmptyString => s1
  end.

(** Second step: every pair of adjacent double quotes, read from the left,
    becomes one double quote. *)
Fixpoint collapseQuotes (s : string) : string :=
  match s with
  | String c s' =>
      match s' with
      | String d s'' =>
          if Ascii.eqb c DQUOTE && Ascii.eqb d DQUOTE
          then String DQUOTE (collapseQuotes s'')
          else String c (collapseQuotes s')
      | EmptyString => s
      end
  | EmptyString => s
  end.

(** The date of a row: the field as [new Date] reads it, or the current
    time when it cannot be read. *)
Definition rowDate (dateStr : option string) : M string :=
  match dateStr ≫= JsDate.parse host with
  | Some t => mret (JsDate.toISOString t)
  | None => nowISO
  end.

(** The body of the loop for a row that is long enough. *)
Definition parseRow (dateIdx textIdx : nat) (tagsIdx : option nat)
  (columns : list string) : M (outcome JournalEntry) :=
  let dateStr := columns !! dateIdx in
  let content := columns !! textIdx in
  let tags := match tagsIdx with
              | Some k => columns !! k
              | None => Some ""
              end in
  match ticketMatch tags content with
  | Throws e => mret (Throws e)
  | Returns m =>
      d ← rowDate dateStr;
      i ← freshId;
      mret (match content with
            | None => Throws "TypeError"
            | Some content =>
                Returns {| id := i; date := d;
                           content := collapseQuotes (stripQuotes content);
                           ticketNumber := cleanTicket <$> m;
                           imageUrl := None |}
            end)
  end.

(** The loop over the data lines; [entries] is the array built so far. *)
Fixpoint parseRows (dateIdx textIdx : nat) (tagsIdx : option nat)
  (lines : list string) (entries : list JournalEntry)
  : M (outcome (list JournalEntry)) :=
  match lines with
  | [] => mret (Returns entries)
  | line :: lines' =>
      if negb (JsString.truthy (JsString.trim line))
      then parseRows dateIdx textIdx tagsIdx lines' entries
      else
        let columns := parseLine line in
        if (length columns <=? Nat.max dateIdx textIdx)%nat
        then parseRows dateIdx textIdx tagsIdx lines' entries
        else
          r ← parseRow dateIdx textIdx tagsIdx columns;
          match r with
          | Throws e => mret (Throws e)
          | Returns entry => parseRows dateIdx textIdx tagsIdx lines' (entries ++ [entry])
          end
  end.

Definition parseCSV (text : string) : M (outcome (list JournalEntry)) :=
  let lines := JsString.splitLines "" text in
  if (length lines <? 2)%nat then mret (Returns [])
  else
    let headers := List.map header (parseLine (List.hd "" lines)) in
    let dateIdx := JsArray.findIndex isDateHeader headers in
    let textIdx := JsArray.findIndex isTextHeader headers in
    let tagsIdx := JsArray.findIndex isTagsHeader headers in
    match dateIdx, textIdx with
    | Some dateIdx, Some textIdx => parseRows dateIdx textIdx tagsIdx (List.tl lines) []
    | _, _ => mret (Returns [])
    end.

End ParseCSV.

(* ================================================================== *)
(** * The submit button of the [JournalEditor] form *)
(* ================================================================== *)

(** An optional string is truthy when it is present and not empty. *)
Definition truthyOpt (s : option string) : bool :=
  match s with
  | Some s => JsString.truthy s
  | None => false
  end.

(** [disabled={!content.trim() && !imageUrl}] on the submit button. *)
Definition submitDisabled (content : string) (imageUrl : option string) : bool :=
  negb (JsString.truthy (JsString.trim content)) && negb (truthyOpt imageUrl).

(** [handleSubmit]: [onAddEntry({ content, ticketNumber, imageUrl })]. *)
Definition handleSubmit (content ticketNumber : string) (imageUrl : option string)
  : NewEntryPayload :=
  {| newContent := content; newTicketNumber := Some ticketNumber; newImageUrl := imageUrl |}.

(* ================================================================== *)
(** * The initial entries, and a sample host and world *)
(* ================================================================== *)

(** [new Date(s).toISOString()] for a literal of the standard's format. *)
Definition isoOf (s : string) : string :=
  from_option JsDate.toISOString "Invalid Date" (JsDate.parseISO s).

Definition INITIAL_ENTRIES : list JournalEntry := [
  {| id := "1";
     date := isoOf "2023-06-05T10:00:00Z";
     content := "Fixed the XYZ model at the Smith building. The faulty component was the main logic board. Replaced it with part number #123-ABC. Double-checked the connections and everything seems to be working fine now.";
     ticketNumber := Some "2 382 182";
     imageUrl := None |};
  {| id := "2";
     date := isoOf "2024-01-15T14:30:00Z";
     content := "Followed 'Procedure 10-A' for the server maintenance. Made a mistake by forgetting to back up the configuration file first, which caused a minor delay. Remember to always backup before running the script. This is the third time this has happened.";
     ticketNumber := Some "2 363 806";
     imageUrl := None |};
  {| id := "3";
     date := isoOf "2024-05-20T09:00:00Z";
     content := "Key instructions for Acme Serial #45-B: The device requires a specific power cycle sequence to reset. First, unplug the power. Second, hold the reset button for 10 seconds. Third, plug the power back in while still holding the button. Release after the green light flashes three times.";
     ticketNumber := Some "2 373 091";
     imageUrl := None |};
  {| id := "4";
     date := isoOf "2024-02-10T11:00:00Z";
     content := "Another note on 'Procedure 10-A'. The official documentation is outdated. The correct command is `run-diag --extended` not `run-diag --full`. Made this mistake on the Johnson account, had to roll back.";
     ticketNumber := Some "2 373 092";
     imageUrl := None |}
].

Module Sample.

(** A host that reads no date outside the standard's format. *)
Definition strictHost : string -> option Z := fun _ => None.

(** A stand-in for the locale's rendering of a date. *)
Definition plainLocale (t : option Z) : string :=
  from_option JsDate.toISOString "Invalid Date" t.

(** 2023-11-14T22:13:20Z on every reading of the clock, and one random
    text. *)
Definition world : World :=
  {| clock := fun _ => 1700000000000; random := fun _ => "0.8444218515250481" |}.

Definition entry (i d c : string) (t : option string) : JournalEntry :=
  {| id := i; content := c; date := d; ticketNumber := t; imageUrl := None |}.

Definition note : NewEntryPayload :=
  {| newContent := "Replaced the fan."; newTicketNumber := Some "2 382 182";
     newImageUrl := None |}.

Definition batch : list JournalEntry :=
  [ entry "" "2024-03-01" "Imported from a backup." (Some "2 363 806");
    entry "b2" "2022-12-31T23:59:59.000Z" "Year end." None;
    entry "b3" "2024-03-01" "Imported from a backup." None ].

(** Entries of one ticket, the middle one with a date nobody can read. *)
Definition undated : list JournalEntry :=
  [ entry "a" "2024-01-01T00:00:00.000Z" "Later visit." (Some "7");
    entry "g" "yesterday" "Some day." (Some "7");
    entry "x" "2023-01-01T00:00:00.000Z" "First visit." (Some "7") ].

(** The header [date,content,tags] and one row, whose content is quoted and
    holds a comma. *)
Definition csvRow : string :=
  "2024-01-01," +:+ String DQUOTE "Fixed, it" +:+ String DQUOTE ",12 345 678".
Definition csvRoundTrip : string := "date,content,tags" +:+ LF +:+ csvRow.

(** The same header, a row with all three columns and a row that stops
    before the tags column. *)
Definition csvShortRow : string :=
  "date,content,tags" +:+ LF +:+ "2024-01-01,first,1 234 567" +:+ LF +:+ "2024-01-02,hello".

(** A form with blank text and an attached image. *)
Definition blankText : string := "   ".
Definition attachedImage : option string := Some "data:image/png;base64,iVBORw0KGgo=".

(** Two entries that differ in date and in content and whose signatures are
    the same text. *)
Definition monthNote : JournalEntry := entry "m" "2024-01" "15-minute outage." None.
Definition dayNote : JournalEntry := entry "d" "2024-01-15" "minute outage." None.

(** Two entries of one ticket in the order of the snapshot, the second with
    a date nobody can read. *)
Definition halfDated : list JournalEntry :=
  [ entry "a" "2024-01-01T00:00:00.000Z" "Visit." (Some "8");
    entry "g" "yesterday" "Phone call." (Some "8") ].

(** A backup in which one entry has a date nobody can read. *)
Definition backup : list JournalEntry :=
  [ entry "a" "2020-01-01T00:00:00.000Z" "Install." None;
    entry "b" "2019-01-01T00:00:00.000Z" "Survey." None;
    entry "g" "yesterday" "Phone call." None;
    entry "c" "2024-01-01T00:00:00.000Z" "Replacement." None ].

Definition session : list Op :=
  [ Add note; Import batch; Update "1" (dateOnly "2024-03-01");
    Compile "2 382 182"; Delete "2" ].

End Sample.

(* ================================================================== *)
(** * The ticket-number field of the forms *)
(* ================================================================== *)

(** [value.replace(/\D/g, '')] *)
Definition digitsOnly (value : string) : string :=
  JsString.removeAll (fun c => negb (JsString.isDigit c)) value.

(** [s.match(/.{1,3}/g)] for a string without line terminators, which is
    what the digits are: the characters in groups of three from the left,
    the last group with what is left; no group for the empty string, where
    [match] gives [null]. *)
Fixpoint groupsOfThree (s : string) : list string :=
  match s with
  | String a (String b (String c rest)) =>
      String a (String b (String c "")) :: groupsOfThree rest
  | EmptyString => []
  | _ => [s]
  end.

(** [formatTicketNumber] of [JournalEditor] and of [JournalList];
    [s.split('').reverse().join('')] is [String.rev s]. *)
Definition formatTicketNumber (value : string) : string :=
  let digitsOnly := digitsOnly value in
  if negb (JsString.truthy digitsOnly) then ""
  else
    let reversed := String.rev digitsOnly in
    let grouped := JsString.join " " (groupsOfThree reversed) in
    String.rev grouped.

(* ================================================================== *)
(** * Duplicating an entry in the [JournalEditor] form *)
(* ================================================================== *)

(** The state of the form: [content], [ticketNumber] and [imageUrl]. *)
Record Form : Type := {
  formContent : string;
  formTicketNumber : string;
  formImageUrl : option string
}.

Section Duplication.

Variable host : string -> option Z.
(** [toLocaleDateString('en-US', ...)] of a date, which depends on the
    locale data and the time zone of the host. *)
Variable toLocaleDateString : option Z -> string.

(** The effect that runs when [entryToDuplicate] is set to an entry. *)
Definition duplicate (entryToDuplicate : JournalEntry) (form : Form) : M Form :=
  let originalDate := toLocaleDateString (getTime host entryToDuplicate) in
  now ← newDate;
  let todayDate := toLocaleDateString (Some now) in
  let newContent :=
    "--- Copied from entry on " +:+ originalDate +:+ " ---" +:+ LF
      +:+ content entryToDuplicate +:+ LF +:+ LF
      +:+ "--- Notes for " +:+ todayDate +:+ " ---" +:+ LF in
  mret {| formContent := newContent;
          formTicketNumber := default "" (ticketNumber entryToDuplicate);
          formImageUrl := if truthyOpt (imageUrl entryToDuplicate)
                          then imageUrl entryToDuplicate
                          else formImageUrl form |}.

(** [handleSubmit] on the state of the form. *)
Definition submit (form : Form) : NewEntryPayload :=
  handleSubmit (formContent form) (formTicketNumber form) (formImageUrl form).

End Duplication.

(* ================================================================== *)
(** * The list of entries: [JournalList] and [JournalEntryCard] *)
(* ================================================================== *)

Section JournalList.

(** The property names every object inherits from [Object.prototype]
    ([constructor], [toString], [__proto__], ...). *)
Variable inherited : string -> bool.

(** The body of the loop of [ticketCounts]:
    [counts[t] = (counts[t] || 0) + 1] for a truthy ticket number.  The map
    holds the properties of [counts] that are numbers.  Under an inherited
    name [counts[t]] is a function or an object, [+ 1] makes a string of it,
    and no number is ever stored under that name. *)
Definition countTicket (counts : gmap string nat) (entry : JournalEntry)
  : gmap string nat :=
  match ticketNumber entry with
  | Some t =>
      if JsString.truthy t && negb (inherited t)
      then <[t := S (default 0%nat (counts !! t))]> counts
      else counts
  | None => counts
  end.

Definition ticketCounts (entries : list JournalEntry) : gmap string nat :=
  List.fold_left countTicket entries ∅.

(** [!!entry.ticketNumber && ticketCounts[entry.ticketNumber] > 1]; what is
    not a number is not greater than 1. *)
Definition isCompilable (entries : list JournalEntry) (entry : JournalEntry) : bool :=
  match ticketNumber entry with
  | Some t =>
      JsString.truthy t
      && match ticketCounts entries !! t with
         | Some n => (1 <? n)%nat
         | None => false
         end
  | None => false
  end.

(** [handleCompile]: the operation the button asks for; [confirmed] is the
    answer to [window.confirm]. *)
Definition handleCompile (confirmed : bool) (entry : JournalEntry) : option Op :=
  match ticketNumber entry with
  | Some t => if JsString.truthy t && confirmed then Some (Compile t) else None
  | None => None
  end.

End JournalList.

(** The state of a card in edit mode. *)
Record Card : Type := {
  editedContent : string;
  editedTicketNumber : string;
  editedDate : string
}.

(** The initial state of the card of [entry]; [entry.ticketNumber || '']. *)
Definition openCard (entry : JournalEntry) : Card :=
  {| editedContent := content entry;
     editedTicketNumber := default "" (ticketNumber entry);
     editedDate := date entry |}.

(** What the user types into the three inputs. *)
Inductive Edit : Type :=
| TypeContent (value : string)
| TypeTicketNumber (value : string)
| PickDate (value : string).

Section JournalEntryCard.

Variable host : string -> option Z.

(** The [onChange] handlers.  [new Date(value).toISOString()] throws a
    [RangeError] when the value is no date. *)
Definition onChange (edit : Edit) (card : Card) : outcome Card :=
  match edit with
  | TypeContent value =>
      Returns {| editedContent := value;
                 editedTicketNumber := editedTicketNumber card;
                 editedDate := editedDate card |}
  | TypeTicketNumber value =>
      Returns {| editedContent := editedContent card;
                 editedTicketNumber := formatTicketNumber value;
                 editedDate := editedDate card |}
  | PickDate value =>
      match JsDate.parse host value with
      | Some t =>
          Returns {| editedContent := editedContent card;
                     editedTicketNumber := editedTicketNumber card;
                     editedDate := JsDate.toISOString t |}
      | None => Throws "RangeError"
      end
  end.

(** The edits one after the other; a handler that throws leaves the state
    as it was. *)
Fixpoint typing (edits : list Edit) (card : Card) : Card :=
  match edits with
  | [] => card
  | edit :: edits' =>
      match onChange edit card with
      | Returns card' => typing edits' card'
      | Throws _ => typing edits' card
      end
  end.

(** [handleSave]: the payload handed to [onUpdate], if any. *)
Definition handleSave (card : Card) : option UpdateEntryPayload :=
  if JsString.truthy (JsString.trim (editedContent card))
  then Some {| updContent := Some (editedContent card);
               updDate := Some (editedDate card);
               updTicketNumber := Some (Some (editedTicketNumber card));
               updImageUrl := None |}
  else None.

End JournalEntryCard.

(* ================================================================== *)
(** * The prompt of the query service *)
(* ================================================================== *)

Section BuildPrompt.

Variable host : string -> option Z.
(** [toLocaleDateString('en-CA')] of a date, which depends on the time zone
    of the host. *)
Variable toLocaleDateString : option Z -> string.

(** The text of one entry. *)
Definition entryText (entry : JournalEntry) : string :=
  let ticketInfo :=
    match ticketNumber entry with
    | Some t => if JsString.truthy t then "Ticket: " +:+ t +:+ LF else ""
    | None => ""
    end in
  "---" +:+ LF +:+ ticketInfo +:+ "Date: " +:+ toLocaleDateString (getTime host entry)
    +:+ LF +:+ "Content:" +:+ LF +:+ content entry +:+ LF +:+ "---".

Definition buildPrompt (question : string) (entries : list JournalEntry) : string :=
  let entriesText := JsString.join (LF +:+ LF) (List.map entryText entries) in
  "Here are the journal entries to reference:" +:+ LF +:+ LF +:+ entriesText
    +:+ LF +:+ LF +:+ "Question: " +:+ String DQUOTE question +:+ String DQUOTE "".

End BuildPrompt.

(* ================================================================== *)
(** * More vocabulary *)
(* ================================================================== *)

(** The entry has an id: its [id] is not the empty string. *)
Definition hasId (e : JournalEntry) : Prop := JsString.truthy (id e) = true.

(** What [new Date] makes of a string is a time value a date can hold. *)
Definition validHost (host : string -> option Z) : Prop :=
  forall s t, host s = Some t -> JsDate.minTime <= t <= JsDate.maxTime.

(** The entry [addEntry] builds from a payload: the id from the first reading
    of the clock and a random draw, the date from the second reading. *)
Definition newEntry (payload : NewEntryPayload) (w : World) : JournalEntry :=
  {| id := JsDate.toISOString (clock w 0%nat) +:+ random w 0%nat;
     content := newContent payload;
     date := JsDate.toISOString (clock w 1%nat);
     ticketNumber := newTicketNumber payload;
     imageUrl := newImageUrl payload |}.

(** ** CSV fields *)

(** [s] with each of its double quotes written twice. *)
Fixpoint doubled (s : string) : string :=
  match s with
  | String c s' =>
      if Ascii.eqb c DQUOTE then String DQUOTE (String DQUOTE (doubled s'))
      else String c (doubled s')
  | EmptyString => EmptyString
  end.

(** A field as a CSV writer quotes it: between double quotes, the double
    quotes inside doubled. *)
Definition quoted (field : string) : string :=
  String DQUOTE (doubled field +:+ String DQUOTE "").

(** The field holds neither a comma nor a double quote. *)
Fixpoint plain (field : string) : bool :=
  match field with
  | String c s' => negb (Ascii.eqb c ",") && negb (Ascii.eqb c DQUOTE) && plain s'
  | EmptyString => true
  end.

(** [cell] is a way to write [field] in a line of a CSV file: quoted, or
    as it is when it is plain. *)
Definition writes (field cell : string) : Prop :=
  cell = quoted field \/ (plain field = true /\ cell = field).

(** What [parseCSV] promises of an entry: a date that can be read, an id
    and no image. *)
Definition wellFormed (host : string -> option Z) (e : JournalEntry) : Prop :=
  wellDated host e /\ hasId e /\ imageUrl e = None.

(** ** Characters *)

(** The characters of [s] all satisfy [p]. *)
Fixpoint allOf (p : ascii -> bool) (s : string) : bool :=
  match s with
  | String c s' => p c && allOf p s'
  | EmptyString => true
  end.

Definition isDigitOrSpace (c : ascii) : bool := JsString.isDigit c || Ascii.eqb c " ".

(** A name under which [ticketCounts] counts: not empty, and not a name
    every object inherits. *)
Definition counted (inherited : string -> bool) (t : string) : bool :=
  JsString.truthy t && negb (inherited t).

(** ** CSV files *)

(** The character ends no line: it is neither LF nor CR. *)
Definition noBreak (c : ascii) : bool :=
  negb (Ascii.eqb c "010") && negb (Ascii.eqb c "013").

Definition notQuote (c : ascii) : bool := negb (Ascii.eqb c DQUOTE).

(** A line of a two-column file: the date as it is, the content quoted. *)
Definition csvLine (r : string * string) : string :=
  fst r +:+ "," +:+ quoted (snd r).

(** The file with the header [date,content] and one line for each row. *)
Definition csvFile (rows : list (string * string)) : string :=
  "date,content" +:+ LF +:+ JsString.join LF (List.map csvLine rows).

(** The row's date and content can stand in a line of the file: the date
    holds no comma, no double quote and no line break, the content no
    double quote and no line break. *)
Definition writable (r : string * string) : Prop :=
  plain (fst r) = true /\ allOf noBreak (fst r) = true
  /\ allOf noBreak (snd r) = true /\ allOf notQuote (snd r) = true.

(** What [parseCSV] makes of a row: the content as it is, the date as
    [toISOString] writes it when it can be read, the ticket number found in
    the content, and no image. *)
Definition readAs (host : string -> option Z) (r : string * string) (e : JournalEntry)
  : Prop :=
  content e = snd r
  /\ (forall t, JsDate.parse host (fst r) = Some t -> date e = JsDate.toISOString t)
  /\ ticketNumber e = cleanTicket <$> RegExp.exec ticketInContent (snd r)
  /\ imageUrl e = None.

(* ================================================================== *)
(** * Facts about the sort *)
(* ================================================================== *)

Module SortFacts.
Import JsArray.

Section Any.
Context {A : Type}.
Variable compareFn : A -> A -> option Z.

Lemma insert_perm (x : A) (l : list A) : Permutation (insert compareFn x l) (x :: l).
Proof.
  induction l as [|y l IH]; simpl; [reflexivity|].
  destruct (comesAfter compareFn x y); [|reflexivity].
  rewrite IH. apply perm_swap.
Qed.

(** The sort only moves elements, whatever the comparator answers. *)
Lemma sort_perm (l : list A) : Permutation (sort compareFn l) l.
Proof.
  induction l as [|x l IH]; simpl; [reflexivity|].
  rewrite insert_perm. now constructor.
Qed.

Lemma sort_length (l : list A) : length (sort compareFn l) = length l.
Proof. apply Permutation_length, sort_perm. Qed.

Lemma sort_In (x : A) (l : list A) : In x (sort compareFn l) <-> In x l.
Proof.
  split; apply Permutation_in; [|symmetry]; apply sort_perm.
Qed.

Lemma sort_Forall (P : A -> Prop) (l : list A) :
  Forall P l -> Forall P (sort compareFn l).
Proof.
  rewrite !List.Forall_forall. intros H x Hx. apply H, sort_In, Hx.
Qed.

(** No element has to come after its right neighbour. *)
Definition settled : list A -> Prop :=
  Sorted (fun a b => comesAfter compareFn a b = false).

Lemma sort_settled_id (l : list A) : settled l -> sort compareFn l = l.
Proof.
  induction 1 as [|x l Hl IH Hhd]; simpl; [reflexivity|].
  rewrite IH. destruct Hhd as [|y l' Hxy]; simpl; [reflexivity|].
  now rewrite Hxy.
Qed.

End Any.

(** A comparator that, on the elements satisfying [ok], orders by an
    integer [rank]: the smaller rank first. *)
Section Ranked.
Context {A : Type}.
Variable compareFn : A -> A -> option Z.
Variable ok : A -> Prop.
Variable rank : A -> Z.
Hypothesis ranked : forall x y,
  ok x -> ok y -> comesAfter compareFn x y = (rank y <? rank x).

Definition byRank (a b : A) : Prop := rank a <= rank b.

Lemma insert_sorted (x : A) (l : list A) :
  ok x -> Forall ok l ->
  StronglySorted byRank l -> StronglySorted byRank (insert compareFn x l).
Proof.
  intros Hx Hok Hs. induction Hs as [|y l Hs IH Hall]; simpl.
  - repeat constructor.
  - inversion Hok as [|? ? Hy Hl]; subst.
    rewrite (ranked x y Hx Hy).
    destruct (Z.ltb_spec (rank y) (rank x)) as [Hlt|Hge].
    + constructor; [now apply IH|].
      rewrite List.Forall_forall. intros z Hz.
      apply (Permutation_in _ (insert_perm compareFn x l)) in Hz.
      destruct Hz as [<-|Hz]; [unfold byRank; lia|].
      rewrite List.Forall_forall in Hall. now apply Hall.
    + constructor; [now constructor|].
      constructor; [exact Hge|].
      eapply List.Forall_impl; [|exact Hall]. unfold byRank. intros; lia.
Qed.

Lemma sort_sorted (l : list A) :
  Forall ok l -> StronglySorted byRank (sort compareFn l).
Proof.
  induction 1 as [|x l Hx Hl IH]; simpl; [constructor|].
  apply insert_sorted; auto. now apply sort_Forall.
Qed.

Definition hasRank (k : Z) (a : A) : bool := rank a =? k.

Lemma insert_stable (k : Z) (x : A) (l : list A) :
  ok x -> Forall ok l ->
  List.filter (hasRank k) (insert compareFn x l) = List.filter (hasRank k) (x :: l).
Proof.
  intros Hx. induction 1 as [|y l Hy Hl IH]; [reflexivity|].
  cbn [insert]. rewrite (ranked x y Hx Hy).
  destruct (Z.ltb_spec (rank y) (rank x)) as [Hlt|Hge]; [|reflexivity].
  cbn [List.filter] in *. rewrite IH. unfold hasRank.
  destruct (Z.eqb_spec (rank x) k), (Z.eqb_spec (rank y) k); try reflexivity; lia.
Qed.

(** Stability: the elements of one rank come out in the order they went
    in. *)
Lemma sort_stable (k : Z) (l : list A) :
  Forall ok l ->
  List.filter (hasRank k) (sort compareFn l) = List.filter (hasRank k) l.
Proof.
  induction 1 as [|x l Hx Hl IH]; [reflexivity|].
  cbn [sort]. rewrite insert_stable; auto using sort_Forall.
  cbn [List.filter]. now rewrite IH.
Qed.

Lemma hasRank_head (x : A) (l l' : list A) :
  List.filter (hasRank (rank x)) (x :: l) = List.filter (hasRank (rank x)) l' ->
  In x l'.
Proof.
  cbn [List.filter]. unfold hasRank at 1. rewrite Z.eqb_refl. intros H.
  apply (List.filter_In (hasRank (rank x)) x l'). rewrite <- H. now left.
Qed.

(** A sorted list is determined by the order of the elements of each rank:
    every stable sort returns the same array as [sort]. *)
Lemma sorted_stable_unique (l1 l2 : list A) :
  StronglySorted byRank l1 -> StronglySorted byRank l2 ->
  (forall k, List.filter (hasRank k) l1 = List.filter (hasRank k) l2) ->
  l1 = l2.
Proof.
  intros H1. revert l2. induction H1 as [|x l1 H1 IH Hx]; intros l2 H2 Hf.
  - destruct l2 as [|y l2]; [reflexivity|].
    specialize (Hf (rank y)). symmetry in Hf. apply hasRank_head in Hf. destruct Hf.
  - destruct l2 as [|y l2]; [apply hasRank_head in Hf; destruct Hf|].
    apply StronglySorted_inv in H2 as [H2 Hy].
    rewrite List.Forall_forall in Hx, Hy.
    assert (Hxy : rank x = rank y).
    { pose proof (hasRank_head x l1 (y :: l2) (Hf (rank x))) as Hin1.
      pose proof (hasRank_head y l2 (x :: l1) (eq_sym (Hf (rank y)))) as Hin2.
      unfold byRank in *.
      destruct Hin1 as [->|Hin1]; [reflexivity|].
      destruct Hin2 as [->|Hin2]; [reflexivity|].
      specialize (Hx y Hin2). specialize (Hy x Hin1). lia. }
    assert (Heq : x = y).
    { specialize (Hf (rank x)). cbn [List.filter] in Hf.
      assert (Hrx : hasRank (rank x) x = true) by apply Z.eqb_refl.
      assert (Hry : hasRank (rank x) y = true)
        by (unfold hasRank; rewrite Hxy; apply Z.eqb_refl).
      rewrite Hrx, Hry in Hf. now injection Hf. }
    subst y. f_equal. apply IH; [exact H2|].
    intros k. specialize (Hf k). cbn [List.filter] in Hf.
    destruct (hasRank k x); [now injection Hf | exact Hf].
Qed.

(** Whatever stable sort the engine runs, on elements that satisfy [ok] it
    returns what [sort] returns. *)
Lemma sort_unique (l l' : list A) :
  Forall ok l ->
  StronglySorted byRank l' ->
  (forall k, List.filter (hasRank k) l' = List.filter (hasRank k) l) ->
  l' = sort compareFn l.
Proof.
  intros Hok Hs Hst. apply sorted_stable_unique; [exact Hs | now apply sort_sorted|].
  intros k. now rewrite Hst, sort_stable.
Qed.

End Ranked.

End SortFacts.


(* ================================================================== *)
(** * Facts about strings *)
(* ================================================================== *)

Lemma append_cons (c : ascii) (a b : string) : String c a +:+ b = String c (a +:+ b).
Proof. reflexivity. Qed.

Lemma lit_append (c : ascii) (s : string) : String c "" +:+ s = String c s.
Proof. reflexivity. Qed.

Lemma append_assoc (a b c : string) : (a +:+ b) +:+ c = a +:+ (b +:+ c).
Proof.
  induction a as [|x a IH]; [reflexivity|]. rewrite !append_cons. now f_equal.
Qed.

Lemma append_empty_r (a : string) : a +:+ "" = a.
Proof.
  induction a as [|x a IH]; [reflexivity|]. rewrite append_cons. now f_equal.
Qed.

(* ================================================================== *)
(** * Facts about dates *)
(* ================================================================== *)

Module DateFacts.
Import JsDate.

Lemma DayFromYear_step (y : Z) :
  DayFromYear (y + 1) - DayFromYear y = if InLeapYear y then 366 else 365.
Proof.
  unfold DayFromYear, InLeapYear.
  destruct (Z.eqb_spec (y mod 4) 0), (Z.eqb_spec (y mod 100) 0), (Z.eqb_spec (y mod 400) 0);
    cbn [negb andb orb]; Z.div_mod_to_equations; lia.
Qed.

Lemma YearFromDay_spec (d : Z) :
  DayFromYear (YearFromDay d) <= d < DayFromYear (YearFromDay d + 1).
Proof.
  unfold YearFromDay.
  set (y := 1970 + d * 400 / 146097).
  assert (Hlo : DayFromYear (y - 1) <= d).
  { subst y. unfold DayFromYear. Z.div_mod_to_equations. lia. }
  assert (Hhi : d < DayFromYear (y + 2)).
  { subst y. unfold DayFromYear. Z.div_mod_to_equations. lia. }
  destruct (Z.leb_spec (DayFromYear (y + 1)) d).
  - replace (y + 1 + 1) with (y + 2) by lia. lia.
  - destruct (Z.leb_spec (DayFromYear y) d); [lia|].
    replace (y - 1 + 1) with y by lia. lia.
Qed.

Lemma monthAndDay_spec (leap : bool) (dd : Z) :
  0 <= dd < (if leap then 366 else 365) ->
  let md := monthAndDay (monthLengths leap) 0 dd in
  (fst md < 12)%nat
  /\ 1 <= snd md <= nth (fst md) (monthLengths leap) 0
  /\ daysBefore (monthLengths leap) (fst md) + (snd md - 1) = dd.
Proof.
  intros H. destruct leap; cbn [monthLengths monthAndDay];
    repeat (match goal with
            | |- context [?a <? ?b] => destruct (Z.ltb_spec a b)
            end; [cbn; lia|]);
    lia.
Qed.

Lemma digitChar_isDigit (n : Z) :
  0 <= n < 10 ->
  JsString.isDigit (digitChar n) = true /\ JsString.code (digitChar n) - 48 = n.
Proof.
  intros H. rewrite <- (Z2Nat.id n) by lia.
  assert (Hk : (Z.to_nat n < 10)%nat) by lia.
  revert Hk. generalize (Z.to_nat n). intros k Hk.
  do 10 (destruct k as [|k]; [split; reflexivity|]). lia.
Qed.

(** Reading back the [k] digits that [pad] wrote. *)
Lemma number_pad (k j : nat) (n acc : Z) (rest : string) :
  number (k + j) acc (pad k n +:+ rest)
  = number j (acc * 10 ^ Z.of_nat k + n mod 10 ^ Z.of_nat k) rest.
Proof.
  revert j n acc rest. induction k as [|k IH]; intros j n acc rest.
  - cbn [pad Nat.add]. change ("" +:+ rest) with rest. rewrite Z.mod_1_r. f_equal. cbn. lia.
  - cbn [pad]. rewrite append_assoc, append_cons. change ("" +:+ rest) with rest.
    replace (S k + j)%nat with (k + S j)%nat by lia. rewrite IH.
    cbn [number].
    destruct (digitChar_isDigit (n mod 10)) as [Hd Hc]; [apply Z.mod_pos_bound; lia|].
    rewrite Hd, Hc. f_equal.
    rewrite Nat2Z.inj_succ, Z.pow_succ_r by lia.
    assert (H10 : 0 < 10 ^ Z.of_nat k) by (apply Z.pow_pos_nonneg; lia).
    rewrite (Z.rem_mul_r n 10 (10 ^ Z.of_nat k)) by lia. ring.
Qed.

Lemma read_pad (k : nat) (n : Z) (rest : string) :
  0 <= n < 10 ^ Z.of_nat k -> number k 0 (pad k n +:+ rest) = Some (n, rest).
Proof.
  intros H. pose proof (number_pad k 0 n 0 rest) as Hn.
  rewrite Nat.add_0_r in Hn. rewrite Hn. cbn [number].
  rewrite Z.mod_small by lia. do 2 f_equal.
Qed.

Ltac read_field :=
  rewrite read_pad
    by (first [change (10 ^ Z.of_nat 2) with 100 | change (10 ^ Z.of_nat 3) with 1000
              | change (10 ^ Z.of_nat 4) with 10000];
        Z.div_mod_to_equations; lia);
  rewrite ?lit_append; cbn [mbind option_bind expect Ascii.eqb Bool.eqb].

Lemma utcTime_read (ms : Z) :
  0 <= ms < msPerDay ->
  utcTime (pad 2 (ms / 3600000) +:+ ":" +:+ pad 2 (ms / 60000 mod 60) +:+ ":"
           +:+ pad 2 (ms / 1000 mod 60) +:+ "." +:+ pad 3 (ms mod 1000) +:+ "Z")
  = Some ms.
Proof.
  unfold msPerDay. intros H. unfold utcTime.
  do 4 read_field. cbn [JsString.truthy].
  replace ((ms / 3600000 <=? 23) && (ms / 60000 mod 60 <=? 59) && (ms / 1000 mod 60 <=? 59))
    with true.
  - f_equal. Z.div_mod_to_equations. lia.
  - symmetry. rewrite !andb_true_iff, !Z.leb_le. Z.div_mod_to_equations. lia.
Qed.

Lemma isDigit_not_sign (c : ascii) :
  JsString.isDigit c = true -> Ascii.eqb "+" c = false /\ Ascii.eqb "-" c = false.
Proof.
  destruct c as [[] [] [] [] [] [] [] []]; intros H; try discriminate H; split; reflexivity.
Qed.

Lemma pad_head (k : nat) (n : Z) (rest : string) :
  exists c r, pad (S k) n +:+ rest = String c r /\ JsString.isDigit c = true.
Proof.
  revert n rest. induction k as [|k IH]; intros n rest.
  - exists (digitChar (n mod 10)), rest. split; [reflexivity|].
    apply digitChar_isDigit, Z.mod_pos_bound. lia.
  - change (pad (S (S k)) n) with (pad (S k) (n / 10) +:+ String (digitChar (n mod 10)) "").
    rewrite append_assoc. apply IH.
Qed.

Lemma yearField_read (y : Z) (rest : string) :
  -999999 <= y <= 999999 -> yearField (yearText y +:+ rest) = Some (y, rest).
Proof.
  intros Hy. unfold yearText, yearField.
  destruct (Z.leb_spec 0 y); [destruct (Z.leb_spec y 9999)|]; cbn [andb].
  - destruct (pad_head 3 y rest) as (c & r & Heq & Hc).
    destruct (isDigit_not_sign c Hc) as [Hp Hm].
    rewrite Heq. cbn [expect]. rewrite Hp, Hm. rewrite <- Heq.
    apply read_pad. change (10 ^ Z.of_nat 4) with 10000. lia.
  - destruct (Z.ltb_spec y 0); [lia|].
    rewrite append_assoc, lit_append. cbn [expect Ascii.eqb Bool.eqb].
    apply read_pad. change (10 ^ Z.of_nat 6) with 1000000. lia.
  - destruct (Z.ltb_spec y 0); [|lia].
    rewrite append_assoc, lit_append. cbn [expect Ascii.eqb Bool.eqb].
    rewrite read_pad by (change (10 ^ Z.of_nat 6) with 1000000; lia).
    cbn [mbind option_bind]. destruct (Z.eqb_spec (- y) 0); [lia|].
    do 2 f_equal. lia.
Qed.

(** [new Date] reads back what [toISOString] wrote, with the same time
    value. *)
Lemma parseISO_toISOString (t : Z) :
  minTime <= t <= maxTime -> parseISO (toISOString t) = Some t.
Proof.
  unfold minTime, maxTime. intros Ht.
  unfold toISOString.
  set (day := t / msPerDay). set (ms := t mod msPerDay).
  assert (Hms : 0 <= ms < msPerDay) by (apply Z.mod_pos_bound; reflexivity).
  assert (Hday : -100000000 <= day <= 100000000).
  { subst day. unfold msPerDay. Z.div_mod_to_equations. lia. }
  pose proof (YearFromDay_spec day) as Hy.
  set (y := YearFromDay day) in *.
  assert (Hyr : -999999 <= y <= 999999).
  { revert Hy Hday. unfold DayFromYear. Z.div_mod_to_equations. lia. }
  pose proof (DayFromYear_step y) as Hstep.
  pose proof (monthAndDay_spec (InLeapYear y) (day - DayFromYear y)) as Hmd.
  destruct (monthAndDay (monthLengths (InLeapYear y)) 0 (day - DayFromYear y)) as [m d].
  cbn [fst snd] in Hmd.
  destruct Hmd as (Hm & Hd & Hsum); [destruct (InLeapYear y); lia|].
  assert (H31 : nth m (monthLengths (InLeapYear y)) 0 <= 31).
  { clear. destruct (InLeapYear y); do 12 (destruct m as [|m]; [cbn; lia|]);
      destruct m; cbn; lia. }
  unfold parseISO. rewrite yearField_read by exact Hyr.
  unfold dashField. rewrite ?lit_append. cbn [mbind option_bind expect Ascii.eqb Bool.eqb].
  read_field. read_field.
  replace (Z.to_nat (Z.of_nat m + 1 - 1)) with m by lia.
  replace ((1 <=? Z.of_nat m + 1) && (Z.of_nat m + 1 <=? 12) && (1 <=? d)
           && (d <=? nth m (monthLengths (InLeapYear y)) 0)) with true
    by (symmetry; rewrite !andb_true_iff, !Z.leb_le; lia).
  rewrite utcTime_read by exact Hms. cbn [mbind option_bind].
  assert (Heq : MakeDate (MakeDay y (Z.of_nat m + 1) d) ms = t).
  { unfold MakeDate, MakeDay.
    replace (Z.to_nat (Z.of_nat m + 1 - 1)) with m by lia.
    subst day ms. unfold msPerDay in *.
    pose proof (Z.div_mod t 86400000). lia. }
  rewrite Heq. unfold TimeClip, minTime, maxTime.
  replace ((-8640000000000000 <=? t) && (t <=? 8640000000000000)) with true
    by (symmetry; rewrite andb_true_iff, !Z.leb_le; lia).
  reflexivity.
Qed.

End DateFacts.

(* ================================================================== *)
(** * Facts about the world *)
(* ================================================================== *)

Lemma advances_refl (w : World) : advances w w.
Proof. now exists 0%nat. Qed.

Lemma advances_trans (w1 w2 w3 : World) :
  advances w1 w2 -> advances w2 w3 -> advances w1 w3.
Proof.
  intros [k1 H1] [k2 H2]. exists (k1 + k2)%nat. intros n.
  rewrite H2, H1. f_equal. lia.
Qed.

Lemma monotone_ret {A : Type} (a : A) : monotone (mret a).
Proof. intros w. apply advances_refl. Qed.

Lemma monotone_bind {A B : Type} (m : M A) (f : A -> M B) :
  monotone m -> (forall a, monotone (f a)) -> monotone (m ≫= f).
Proof.
  intros Hm Hf w. unfold mbind, M_bind.
  specialize (Hm w). destruct (m w) as [a w1]. simpl in Hm.
  eapply advances_trans; [exact Hm | apply Hf].
Qed.

Lemma monotone_newDate : monotone newDate.
Proof. intros w. exists 1%nat. reflexivity. Qed.

Lemma monotone_Math_random : monotone Math_random.
Proof. intros w. exists 0%nat. reflexivity. Qed.

Lemma monotone_freshId : monotone freshId.
Proof.
  apply monotone_bind; [apply monotone_newDate | intros t].
  apply monotone_bind; [apply monotone_Math_random | intros r]. apply monotone_ret.
Qed.

Lemma monotone_nowISO : monotone nowISO.
Proof. apply monotone_bind; [apply monotone_newDate | intros t; apply monotone_ret]. Qed.

(** Splits a computation along its binds and closes the primitive reads. *)
Ltac monotone_steps :=
  repeat first
    [ apply monotone_ret | apply monotone_freshId | apply monotone_nowISO
    | apply monotone_newDate | apply monotone_Math_random
    | apply monotone_bind; [|intros ?] ].

Lemma validClock_advances (w w' : World) :
  advances w w' -> validClock w -> validClock w'.
Proof. intros [k Hk] H n. rewrite Hk. apply H. Qed.

(* ================================================================== *)
(** * Facts about the hook *)
(* ================================================================== *)

Section JournalFacts.

Variable host : string -> option Z.
Variable toLocaleString : option Z -> string.

(** ** The two comparators *)

Lemma newestFirst_ranked (x y : JournalEntry) :
  wellDated host x -> wellDated host y ->
  JsArray.comesAfter (newestFirst host) x y = (- timeOf host y <? - timeOf host x).
Proof.
  intros [tx Hx] [ty Hy].
  unfold JsArray.comesAfter, newestFirst, timeOf, minus.
  rewrite Hx, Hy. simpl.
  destruct (Z.ltb_spec 0 (ty - tx)), (Z.ltb_spec (- ty) (- tx)); try reflexivity; lia.
Qed.

Lemma oldestFirst_ranked (x y : JournalEntry) :
  wellDated host x -> wellDated host y ->
  JsArray.comesAfter (oldestFirst host) x y = (timeOf host y <? timeOf host x).
Proof.
  intros [tx Hx] [ty Hy].
  unfold JsArray.comesAfter, oldestFirst, timeOf, minus.
  rewrite Hx, Hy. simpl.
  destruct (Z.ltb_spec 0 (tx - ty)), (Z.ltb_spec ty tx); try reflexivity; lia.
Qed.

Lemma StronglySorted_weaken {A : Type} (R S : A -> A -> Prop) (l : list A) :
  (forall a b, R a b -> S a b) -> StronglySorted R l -> StronglySorted S l.
Proof.
  intros HRS. induction 1 as [|x l Hl IH Hall]; constructor; auto.
  eapply List.Forall_impl; [|exact Hall]. auto.
Qed.

Lemma filter_agree {A : Type} (P : A -> Prop) (f g : A -> bool) (l : list A) :
  (forall a, P a -> f a = g a) -> Forall P l -> List.filter f l = List.filter g l.
Proof.
  intros Hfg. induction 1 as [|x l Hx Hl IH]; simpl; [reflexivity|].
  now rewrite (Hfg x Hx), IH.
Qed.

(** ** The render's sort *)

Lemma sortedEntries_perm (l : list JournalEntry) : Permutation (sortedEntries host l) l.
Proof. apply SortFacts.sort_perm. Qed.

Lemma sortedEntries_wellDated (l : list JournalEntry) :
  Forall (wellDated host) l -> Forall (wellDated host) (sortedEntries host l).
Proof. apply SortFacts.sort_Forall. Qed.

Lemma sortedEntries_sorted (l : list JournalEntry) :
  Forall (wellDated host) l -> sortedDescending host (sortedEntries host l).
Proof.
  intros Hl.
  apply (StronglySorted_weaken (SortFacts.byRank (fun e => - timeOf host e))).
  - unfold SortFacts.byRank, notOlder, timeOf. intros a b Hab ta tb Ha Hb.
    rewrite Ha, Hb in Hab. simpl in Hab. lia.
  - apply (SortFacts.sort_sorted (newestFirst host) (wellDated host));
      auto using newestFirst_ranked.
Qed.

Lemma sortedEntries_stable (t : Z) (l : list JournalEntry) :
  Forall (wellDated host) l ->
  List.filter (atTime host t) (sortedEntries host l) = List.filter (atTime host t) l.
Proof.
  intros Hl.
  assert (Hag : forall a, wellDated host a ->
            atTime host t a = SortFacts.hasRank (fun e => - timeOf host e) (- t) a).
  { intros a [ta Ha]. unfold atTime, SortFacts.hasRank, timeOf. rewrite Ha. simpl.
    destruct (Z.eqb_spec ta t), (Z.eqb_spec (- ta) (- t)); try reflexivity; lia. }
  rewrite (filter_agree (wellDated host) _ _ _ Hag (sortedEntries_wellDated l Hl)).
  rewrite (filter_agree (wellDated host) _ _ _ Hag Hl).
  apply (SortFacts.sort_stable (newestFirst host) (wellDated host));
    auto using newestFirst_ranked.
Qed.

(** On entries whose dates can be read the snapshot does not depend on the
    engine's sort: it is the one array that is sorted by date, the most recent
    first, and keeps the entries of one instant in their order. *)
Lemma sortedEntries_unique (l l' : list JournalEntry) :
  Forall (wellDated host) l -> Forall (wellDated host) l' ->
  StronglySorted (fun a b => timeOf host b <= timeOf host a) l' ->
  (forall t, List.filter (atTime host t) l' = List.filter (atTime host t) l) ->
  l' = sortedEntries host l.
Proof.
  intros Hl Hl' Hs Hst.
  assert (Hag : forall t a, wellDated host a ->
            SortFacts.hasRank (fun e => - timeOf host e) t a = atTime host (- t) a).
  { intros t a [ta Ha]. unfold atTime, SortFacts.hasRank, timeOf. rewrite Ha. simpl.
    destruct (Z.eqb_spec (- ta) t), (Z.eqb_spec ta (- t)); try reflexivity; lia. }
  apply (SortFacts.sort_unique (newestFirst host) (wellDated host)
           (fun e => - timeOf host e));
    auto using newestFirst_ranked.
  - eapply StronglySorted_weaken; [|exact Hs]. unfold SortFacts.byRank. intros; lia.
  - intros k.
    rewrite (filter_agree (wellDated host) _ _ _ (Hag k) Hl').
    rewrite (filter_agree (wellDated host) _ _ _ (Hag k) Hl). apply Hst.
Qed.

(** ** What the operations keep *)

Lemma wellDated_date (e e' : JournalEntry) :
  date e' = date e -> wellDated host e -> wellDated host e'.
Proof. unfold wellDated, getTime. now intros ->. Qed.

Lemma addEntry_result (payload : NewEntryPayload) (prev : list JournalEntry) (w : World) :
  forall l, fst (addEntry payload prev w) = Some l ->
  l = {| id := JsDate.toISOString (clock w 0%nat) +:+ random w 0%nat;
         content := newContent payload;
         date := JsDate.toISOString (clock w 1%nat);
         ticketNumber := newTicketNumber payload;
         imageUrl := newImageUrl payload |} :: prev.
Proof.
  intros l. unfold addEntry.
  destruct (negb _); simpl; [discriminate|]. now intros [= <-].
Qed.

Lemma monotone_addEntry (payload : NewEntryPayload) (prev : list JournalEntry) :
  monotone (addEntry payload prev).
Proof.
  unfold addEntry. destruct (negb _); monotone_steps.
Qed.

Lemma deleteEntry_incl (i : string) (prev : list JournalEntry) :
  incl (deleteEntry i prev) prev.
Proof. intros e He. unfold deleteEntry in He. now apply List.filter_In in He. Qed.

Lemma updateEntry_wellDated (i : string) (payload : UpdateEntryPayload)
  (prev : list JournalEntry) :
  wellDatedOp host (Update i payload) ->
  Forall (wellDated host) prev -> Forall (wellDated host) (updateEntry i payload prev).
Proof.
  intros Hp. induction 1 as [|e l He Hl IH]; simpl; constructor; auto.
  destruct (String.eqb (id e) i); [|exact He].
  unfold wellDated, getTime, merge. simpl in *.
  destruct (updDate payload); simpl; [exact Hp | exact He].
Qed.

Lemma uniqueNewEntries_incl (seen : gset string) (imported : list JournalEntry) :
  incl (uniqueNewEntries seen imported) imported.
Proof.
  revert seen. induction imported as [|e l IH]; intros seen x Hx; simpl in *; [easy|].
  destruct (bool_decide _).
  - right. eapply IH, Hx.
  - destruct Hx as [<-|Hx]; [now left | right; eapply IH, Hx].
Qed.

Lemma monotone_sanitize (e : JournalEntry) : monotone (sanitize e).
Proof.
  unfold sanitize. destruct (JsString.truthy _); monotone_steps.
Qed.

Lemma monotone_sanitizedNewEntries (l : list JournalEntry) :
  monotone (sanitizedNewEntries l).
Proof.
  induction l as [|e l IH]; simpl; [monotone_steps|].
  apply monotone_bind; [apply monotone_sanitize | intros e'].
  apply monotone_bind; [exact IH | intros l']. monotone_steps.
Qed.

Lemma sanitize_sameButId (e : JournalEntry) (w : World) :
  sameButId e (fst (sanitize e w)).
Proof.
  unfold sanitize. destruct (JsString.truthy _); simpl; repeat split.
Qed.

Lemma sanitizedNewEntries_Forall2 (l : list JournalEntry) (w : World) :
  Forall2 sameButId l (fst (sanitizedNewEntries l w)).
Proof.
  revert w. induction l as [|e l IH]; intros w; simpl; [constructor|].
  unfold mbind, M_bind. pose proof (sanitize_sameButId e w) as He.
  destruct (sanitize e w) as [e' w1]. specialize (IH w1).
  destruct (sanitizedNewEntries l w1) as [l' w2]. simpl in *. now constructor.
Qed.

Lemma sanitizedNewEntries_wellDated (l : list JournalEntry) (w : World) :
  Forall (wellDated host) l -> Forall (wellDated host) (fst (sanitizedNewEntries l w)).
Proof.
  intros Hl. pose proof (sanitizedNewEntries_Forall2 l w) as H2.
  induction H2 as [|e e' l l' He H2 IH]; [constructor|].
  inversion Hl; subst. constructor; auto.
  apply (wellDated_date e); [apply He | assumption].
Qed.


Lemma importEntries_result (imported prev : list JournalEntry) (w : World) :
  fst (importEntries host imported prev w)
  = JsArray.sort (newestFirst host)
      (fst (sanitizedNewEntries
              (uniqueNewEntries (list_to_set (List.map signature prev)) imported) w)
       ++ prev).
Proof.
  unfold importEntries, mbind, M_bind.
  now destruct (sanitizedNewEntries _ w).
Qed.

Lemma monotone_importEntries (imported prev : list JournalEntry) :
  monotone (importEntries host imported prev).
Proof.
  unfold importEntries. apply monotone_bind;
    [apply monotone_sanitizedNewEntries | intros l; monotone_steps].
Qed.

Lemma importEntries_wellDated (imported prev : list JournalEntry) (w : World) :
  Forall (wellDated host) imported -> Forall (wellDated host) prev ->
  Forall (wellDated host) (fst (importEntries host imported prev w)).
Proof.
  intros Hi Hp. rewrite importEntries_result.
  apply SortFacts.sort_Forall, List.Forall_app. split; [|exact Hp].
  apply sanitizedNewEntries_wellDated.
  rewrite List.Forall_forall in *. intros e He.
  apply Hi. eapply uniqueNewEntries_incl, He.
Qed.

Lemma compile_few (t : string) (l : list JournalEntry) (w : World) :
  (length (List.filter (hasTicket t) l) < 2)%nat ->
  compileEntriesByTicketNumber host toLocaleString t l w = (None, w).
Proof.
  intros H. unfold compileEntriesByTicketNumber.
  apply Nat.ltb_lt in H. now rewrite H.
Qed.

Lemma compile_many (t : string) (l : list JournalEntry) (w : World) :
  (2 <= length (List.filter (hasTicket t) l))%nat ->
  let sorted := JsArray.sort (oldestFirst host) (List.filter (hasTicket t) l) in
  exists newest,
    last sorted = Some newest
    /\ fst (compileEntriesByTicketNumber host toLocaleString t l w)
       = Some (compiledFrom host toLocaleString t sorted newest w
               :: List.filter (fun e => negb (hasTicket t e)) l).
Proof.
  intros H sorted. unfold compileEntriesByTicketNumber.
  apply Nat.ltb_ge in H. rewrite H. fold sorted.
  destruct (last sorted) as [newest|] eqn:Hlast.
  - exists newest. split; reflexivity.
  - apply last_None in Hlast. apply Nat.ltb_ge in H.
    assert (Hlen : length sorted = length (List.filter (hasTicket t) l))
      by apply SortFacts.sort_length.
    rewrite Hlast in Hlen. simpl in Hlen. lia.
Qed.

Lemma monotone_compile (t : string) (l : list JournalEntry) :
  monotone (compileEntriesByTicketNumber host toLocaleString t l).
Proof.
  unfold compileEntriesByTicketNumber.
  destruct (_ <? _)%nat; [monotone_steps|].
  destruct (last _); monotone_steps.
Qed.

Lemma last_In {A : Type} (l : list A) (x : A) : last l = Some x -> In x l.
Proof.
  intros H. apply last_Some in H as [l' ->]. apply List.in_app_iff. right. now left.
Qed.

Lemma compile_wellDated (t : string) (l : list JournalEntry) (w : World) :
  Forall (wellDated host) l ->
  forall l', fst (compileEntriesByTicketNumber host toLocaleString t l w) = Some l' ->
  Forall (wellDated host) l'.
Proof.
  intros Hl l' Hc.
  destruct (Nat.lt_ge_cases (length (List.filter (hasTicket t) l)) 2) as [Hlt|Hge].
  - rewrite compile_few in Hc by exact Hlt. discriminate.
  - destruct (compile_many t l w Hge) as (newest & Hlast & Heq).
    rewrite Heq in Hc. injection Hc as <-.
    rewrite List.Forall_forall in Hl. constructor.
    + apply (wellDated_date newest); [reflexivity|].
      apply Hl. apply last_In in Hlast.
      apply SortFacts.sort_In in Hlast. now apply List.filter_In in Hlast.
    + apply List.Forall_forall. intros e He. apply Hl.
      now apply List.filter_In in He.
Qed.

(** ** Every operation keeps the dates readable *)

Lemma monotone_setEntries (op : Op) (prev : list JournalEntry) :
  monotone (setEntries host toLocaleString op prev).
Proof.
  destruct op; simpl.
  - apply monotone_addEntry.
  - monotone_steps.
  - monotone_steps.
  - apply monotone_bind; [apply monotone_importEntries | intros l; monotone_steps].
  - apply monotone_compile.
Qed.

Lemma setEntries_wellDated (op : Op) (prev : list JournalEntry) (w : World) :
  wellDatedOp host op -> validClock w -> Forall (wellDated host) prev ->
  forall l, fst (setEntries host toLocaleString op prev w) = Some l ->
  Forall (wellDated host) l.
Proof.
  intros Hop Hw Hprev l Hl. destruct op; simpl in Hl.
  - apply addEntry_result in Hl as ->. constructor; [|exact Hprev].
  exists (clock w 1%nat). unfold getTime, JsDate.parse. cbn [date].
  now rewrite DateFacts.parseISO_toISOString by apply Hw.
  - injection Hl as <-. rewrite List.Forall_forall in *.
    intros e He. apply Hprev. eapply deleteEntry_incl, He.
  - injection Hl as <-. now apply updateEntry_wellDated.
  - unfold mbind, M_bind in Hl.
    pose proof (importEntries_wellDated importedEntries prev w Hop Hprev) as Hi.
    destruct (importEntries host importedEntries prev w). simpl in *.
    now injection Hl as <-.
  - eapply compile_wellDated; eauto.
Qed.

Lemma step_rendered (op : Op) (h : Hook) (w : World) :
  wellDatedOp host op -> validClock w -> rendered host h ->
  rendered host (fst (step host toLocaleString op h w))
  /\ validClock (snd (step host toLocaleString op h w)).
Proof.
  intros Hop Hw [Hwd Heq].
  pose proof (setEntries_wellDated op (entries h) w Hop Hw) as Hset.
  pose proof (monotone_setEntries op (entries h) w) as Hmon.
  unfold step, mbind, M_bind.
  destruct (setEntries host toLocaleString op (entries h) w) as [[l|] w']; simpl in *.
  - split; [|eapply validClock_advances; eauto].
    split; [|reflexivity]. simpl. apply Hset; [|reflexivity].
    rewrite Heq. now apply sortedEntries_wellDated.
  - split; [now split|]. eapply validClock_advances; eauto.
Qed.

Lemma run_rendered (ops : list Op) (h : Hook) (w : World) :
  Forall (wellDatedOp host) ops -> validClock w -> rendered host h ->
  rendered host (fst (run host toLocaleString ops h w)).
Proof.
  intros Hops. revert h w. induction Hops as [|op ops Hop Hops IH]; intros h w Hw Hh.
  - exact Hh.
  - simpl. unfold mbind, M_bind.
    destruct (step_rendered op h w Hop Hw Hh) as [Hh' Hw'].
    destruct (step host toLocaleString op h w) as [h' w']. now apply IH.
Qed.


(** ** The compiled entry *)

Lemma StronglySorted_last {A : Type} (R : A -> A -> Prop) (l : list A) (x : A) :
  StronglySorted R (l ++ [x]) -> Forall (fun e => R e x) l.
Proof.
  induction l as [|y l IH]; simpl; intros H; [constructor|].
  apply StronglySorted_inv in H as [Hs Hall]. constructor; [|now apply IH].
  rewrite List.Forall_forall in Hall. apply Hall, List.in_app_iff. right. now left.
Qed.

Lemma oldestFirst_sorted (l : list JournalEntry) :
  Forall (wellDated host) l ->
  sortedAscending host (JsArray.sort (oldestFirst host) l).
Proof.
  intros Hl.
  apply (StronglySorted_weaken (SortFacts.byRank (timeOf host))).
  - unfold SortFacts.byRank, notOlder, timeOf. intros a b Hab tb ta Hb Ha.
    rewrite Ha, Hb in Hab. simpl in Hab. lia.
  - apply (SortFacts.sort_sorted (oldestFirst host) (wellDated host));
      auto using oldestFirst_ranked.
Qed.

Lemma notOlder_refl (e : JournalEntry) : notOlder host e e.
Proof. intros ta tb Ha Hb. rewrite Ha in Hb. injection Hb as <-. lia. Qed.

(** The last element of the ascending sort is the most recent source. *)
Lemma oldestFirst_last_latest (l : list JournalEntry) (newest : JournalEntry) :
  Forall (wellDated host) l ->
  last (JsArray.sort (oldestFirst host) l) = Some newest ->
  latestOf host l newest.
Proof.
  intros Hl Hlast. pose proof (oldestFirst_sorted l Hl) as Hs.
  pose proof (last_In _ _ Hlast) as Hin.
  apply last_Some in Hlast as [l' Heq]. rewrite Heq in Hs.
  apply StronglySorted_last in Hs. rewrite List.Forall_forall in Hs.
  apply SortFacts.sort_In in Hin.
  split; [exact Hin|]. split; [rewrite List.Forall_forall in Hl; now apply Hl|].
  intros e He. apply (SortFacts.sort_In (oldestFirst host)) in He.
  rewrite Heq in He. apply List.in_app_iff in He as [He|[<-|[]]].
  - now apply Hs.
  - apply notOlder_refl.
Qed.

Lemma containsInOrder_after (before : string) (parts : list string) (s : string) :
  containsInOrder parts s -> containsInOrder parts (before +:+ s).
Proof.
  intros H. destruct H as [s|b part rest parts H]; [constructor|].
  rewrite <- append_assoc. now constructor.
Qed.

(** The compiled text holds the sources' texts one after the other. *)
Lemma compiledContent_contains (l : list JournalEntry) :
  containsInOrder (List.map content l) (compiledContent host toLocaleString l).
Proof.
  unfold compiledContent.
  induction l as [|e l IH]; [constructor|].
  assert (Hblock : forall rest,
    block host toLocaleString e +:+ rest
    = ("--- Entry from " +:+ toLocaleString (getTime host e) +:+ " ---" +:+ LF)
        +:+ content e +:+ rest).
  { intros rest. unfold block. now rewrite !append_assoc. }
  cbn [List.map JsString.join]. destruct (List.map (block host toLocaleString) l) eqn:Hl.
  - rewrite <- (append_empty_r (block host toLocaleString e)), Hblock.
    constructor. destruct l; [constructor | discriminate].
  - rewrite Hblock. constructor. now apply containsInOrder_after.
Qed.


(** ** Import *)

Lemma signature_sameButId (e e' : JournalEntry) :
  sameButId e e' -> signature e' = signature e.
Proof. intros (Hc & Hd & _). unfold signature. now rewrite Hc, Hd. Qed.

Lemma elem_of_signatures (s : string) (l : list JournalEntry) :
  s ∈ (list_to_set (List.map signature l) : gset string)
  <-> exists e, In e l /\ signature e = s.
Proof.
  rewrite elem_of_list_to_set, list_elem_of_In, List.in_map_iff.
  split; intros (e & H1 & H2); exists e; auto.
Qed.

(** A candidate whose signature is in the set is dropped. *)
Lemma uniqueNewEntries_all_seen (seen : gset string) (imported : list JournalEntry) :
  (forall e, In e imported -> signature e ∈ seen) ->
  uniqueNewEntries seen imported = [].
Proof.
  induction imported as [|e l IH]; intros Hall; simpl; [reflexivity|].
  rewrite bool_decide_eq_true_2 by (apply Hall; now left).
  apply IH. intros e' He'. apply Hall. now right.
Qed.

(** The signature of every candidate is in the set or on a survivor. *)
Lemma uniqueNewEntries_covers (seen : gset string) (imported : list JournalEntry)
  (e : JournalEntry) :
  In e imported ->
  signature e ∈ seen
  \/ exists e', In e' (uniqueNewEntries seen imported) /\ signature e' = signature e.
Proof.
  revert seen. induction imported as [|e0 l IH]; intros seen He; [destruct He|].
  simpl. destruct (bool_decide (signature e0 ∈ seen)) eqn:Hdec.
  - apply bool_decide_eq_true in Hdec. destruct He as [<-|He]; [now left|].
    now apply IH.
  - destruct He as [<-|He]; [right; exists e0; split; [now left | reflexivity]|].
    destruct (IH ({[signature e0]} ∪ seen) He) as [Hin|(e' & He' & Hsig)].
    + apply elem_of_union in Hin as [Hin|Hin]; [|now left].
      apply elem_of_singleton in Hin. right. exists e0. split; [now left | now symmetry].
    + right. exists e'. split; [now right | exact Hsig].
Qed.

Lemma Forall2_In_r {A B : Type} (R : A -> B -> Prop) (l : list A) (l' : list B) (b : B) :
  Forall2 R l l' -> In b l' -> exists a, In a l /\ R a b.
Proof.
  induction 1 as [|x y l l' Hxy H IH]; intros Hb; [destruct Hb|].
  destruct Hb as [<-|Hb]; [exists x; split; [now left | exact Hxy]|].
  destruct (IH Hb) as (a & Ha & HR). exists a. split; [now right | exact HR].
Qed.

Lemma Forall2_In_l {A B : Type} (R : A -> B -> Prop) (l : list A) (l' : list B) (a : A) :
  Forall2 R l l' -> In a l -> exists b, In b l' /\ R a b.
Proof.
  induction 1 as [|x y l l' Hxy H IH]; intros Ha; [destruct Ha|].
  destruct Ha as [<-|Ha]; [exists y; split; [now left | exact Hxy]|].
  destruct (IH Ha) as (b & Hb & HR). exists b. split; [now right | exact HR].
Qed.

(** The entries after an import: the sanitized survivors and the previous
    entries. *)
Lemma import_step (imported : list JournalEntry) (h : Hook) (w : World) :
  let added := fst (sanitizedNewEntries
                      (uniqueNewEntries
                         (list_to_set (List.map signature (entries h))) imported) w) in
  entries (fst (step host toLocaleString (Import imported) h w))
  = sortedEntries host (JsArray.sort (newestFirst host) (added ++ entries h)).
Proof.
  intros added. unfold step, mbind, M_bind. cbn [setEntries].
  unfold mbind, M_bind.
  pose proof (importEntries_result imported (entries h) w) as Hres.
  destruct (importEntries host imported (entries h) w) as [l w'].
  cbn [fst] in Hres. subst l. reflexivity.
Qed.

Lemma import_step_perm (imported : list JournalEntry) (h : Hook) (w : World) :
  Permutation
    (entries (fst (step host toLocaleString (Import imported) h w)))
    (fst (sanitizedNewEntries
            (uniqueNewEntries
               (list_to_set (List.map signature (entries h))) imported) w)
     ++ entries h).
Proof.
  rewrite import_step. unfold sortedEntries. now rewrite !SortFacts.sort_perm.
Qed.

(** After an import, the signature of every candidate is the signature of
    an entry of the state. *)
Lemma import_step_signatures (imported : list JournalEntry) (h : Hook) (w : World)
  (e : JournalEntry) :
  In e imported ->
  signature e ∈ (list_to_set
                   (List.map signature
                      (entries (fst (step host toLocaleString (Import imported) h w))))
                 : gset string).
Proof.
  intros He. apply elem_of_signatures.
  assert (Hin : forall x,
            In x (fst (sanitizedNewEntries
                         (uniqueNewEntries
                            (list_to_set (List.map signature (entries h))) imported) w)
                  ++ entries h) ->
            In x (entries (fst (step host toLocaleString (Import imported) h w)))).
  { intros x. apply Permutation_in. symmetry. apply import_step_perm. }
  destruct (uniqueNewEntries_covers
              (list_to_set (List.map signature (entries h))) imported e He)
    as [Hseen|(e' & He' & Hsig)].
  - apply elem_of_signatures in Hseen as (x & Hx & Hs).
    exists x. split; [|exact Hs]. apply Hin, List.in_app_iff. now right.
  - destruct (Forall2_In_l _ _ _ e' (sanitizedNewEntries_Forall2 _ w) He')
      as (x & Hx & Hsame).
    exists x. split; [apply Hin, List.in_app_iff; now left|].
    rewrite (signature_sameButId _ _ Hsame). exact Hsig.
Qed.


End JournalFacts.

(* ================================================================== *)
(** * Facts about the CSV adapter *)
(* ================================================================== *)

Section CsvFacts.

Variable host : string -> option Z.

(** A row that reaches the date, the content and, when the header has one,
    the tags column is parsed. *)
Lemma parseRow_returns (dateIdx textIdx : nat) (tagsIdx : option nat)
  (columns : list string) (w : World) :
  (Nat.max dateIdx textIdx < length columns)%nat ->
  (forall k, tagsIdx = Some k -> (k < length columns)%nat) ->
  exists entry, fst (parseRow host dateIdx textIdx tagsIdx columns w) = Returns entry.
Proof.
  intros Hlen Htags. unfold parseRow.
  destruct (lookup_lt_is_Some_2 columns textIdx) as [content Hc]; [lia|].
  assert (Ht : exists tags, match tagsIdx with
                            | Some k => columns !! k
                            | None => Some ""
                            end = Some tags).
  { destruct tagsIdx as [k|]; [|now exists ""].
    destruct (lookup_lt_is_Some_2 columns k) as [t Ht]; [now apply Htags | now exists t]. }
  destruct Ht as [tags ->]. rewrite Hc. cbn [ticketMatch].
  destruct (RegExp.exec ticketInTags tags); unfold mbind, M_bind;
    destruct (rowDate host (columns !! dateIdx) w) as [d w1];
    destruct (freshId w1) as [i w2]; eexists; reflexivity.
Qed.

(** The loop returns when every line it does not skip reaches the tags
    column. *)
Lemma parseRows_returns (dateIdx textIdx : nat) (tagsIdx : option nat)
  (lines : list string) (entries : list JournalEntry) (w : World) :
  (forall line k, In line lines -> tagsIdx = Some k ->
     (Nat.max dateIdx textIdx < length (parseLine line))%nat ->
     (k < length (parseLine line))%nat) ->
  exists l, fst (parseRows host dateIdx textIdx tagsIdx lines entries w) = Returns l.
Proof.
  revert entries w. induction lines as [|line lines IH]; intros entries w Hall.
  - now exists entries.
  - cbn [parseRows].
    assert (Hrest : forall line' k, In line' lines -> tagsIdx = Some k ->
              (Nat.max dateIdx textIdx < length (parseLine line'))%nat ->
              (k < length (parseLine line'))%nat)
      by (intros line' k Hin; apply Hall; now right).
    destruct (negb (JsString.truthy (JsString.trim line))); [now apply IH|].
    destruct (Nat.leb_spec (length (parseLine line)) (Nat.max dateIdx textIdx));
      [now apply IH|].
    destruct (parseRow_returns dateIdx textIdx tagsIdx (parseLine line) w)
      as [entry He]; [assumption | intros k Hk; apply (Hall line k); auto; now left |].
    unfold mbind, M_bind.
    destruct (parseRow host dateIdx textIdx tagsIdx (parseLine line) w) as [r w1].
    cbn [fst] in He. subst r. now apply IH.
Qed.

(** Without a tags column in the header the parse returns, whatever the
    rows. *)
Lemma parseCSV_returns_without_tags (text : string) (w : World) :
  JsArray.findIndex isTagsHeader
    (List.map header (parseLine (List.hd "" (JsString.splitLines "" text)))) = None ->
  exists l, fst (parseCSV host text w) = Returns l.
Proof.
  intros Hnone. unfold parseCSV.
  destruct (length (JsString.splitLines "" text) <? 2)%nat; [now exists []|].
  rewrite Hnone.
  destruct (JsArray.findIndex isDateHeader _) as [dateIdx|]; [|now exists []].
  destruct (JsArray.findIndex isTextHeader _) as [textIdx|]; [|now exists []].
  apply parseRows_returns. discriminate.
Qed.

(** The round-trip sample, step by step: its lines, the header's columns,
    the fields of its row, the ticket found in the tags, and the date. *)
Lemma csv_round_trip_lines :
  JsString.splitLines "" Sample.csvRoundTrip = ["date,content,tags"; Sample.csvRow].
Proof. reflexivity. Qed.

Lemma csv_round_trip_header :
  let headers := List.map header (parseLine "date,content,tags") in
  JsArray.findIndex isDateHeader headers = Some 0%nat
  /\ JsArray.findIndex isTextHeader headers = Some 1%nat
  /\ JsArray.findIndex isTagsHeader headers = Some 2%nat.
Proof. repeat split; reflexivity. Qed.

Lemma csv_round_trip_fields :
  parseLine Sample.csvRow = ["2024-01-01"; "Fixed, it"; "12 345 678"].
Proof. reflexivity. Qed.

Lemma csv_round_trip_ticket :
  ticketMatch (Some "12 345 678") (Some "Fixed, it") = Returns (Some "12 345 678")
  /\ cleanTicket "12 345 678" = "12 345 678".
Proof. split; reflexivity. Qed.

Lemma csv_round_trip_date :
  JsDate.parse host "2024-01-01" = Some 1704067200000
  /\ JsDate.toISOString 1704067200000 = "2024-01-01T00:00:00.000Z".
Proof. split; reflexivity. Qed.

(** The value of the round-trip sample, for any host and world. *)
Lemma csv_round_trip_value (w : World) :
  fst (parseCSV host Sample.csvRoundTrip w)
  = Returns [ {| id := JsDate.toISOString (clock w 0%nat) +:+ random w 0%nat;
                 content := "Fixed, it";
                 date := "2024-01-01T00:00:00.000Z";
                 ticketNumber := Some "12 345 678";
                 imageUrl := None |} ].
Proof. reflexivity. Qed.

End CsvFacts.

(* ================================================================== *)
(** * More facts about the hook's operations *)
(* ================================================================== *)

Section OperationFacts.

Variable host : string -> option Z.
Variable toLocaleString : option Z -> string.

Lemma filter_perm {A : Type} (f : A -> bool) (l l' : list A) :
  Permutation l l' -> Permutation (List.filter f l) (List.filter f l').
Proof.
  induction 1 as [|x l l' H IH|x y l|l1 l2 l3 H1 IH1 H2 IH2]; cbn [List.filter].
  - constructor.
  - destruct (f x); [now constructor | exact IH].
  - destruct (f x), (f y); try reflexivity. apply perm_swap.
  - now transitivity (List.filter f l2).
Qed.

Lemma filter_sorted {A : Type} (R : A -> A -> Prop) (f : A -> bool) (l : list A) :
  StronglySorted R l -> StronglySorted R (List.filter f l).
Proof.
  induction 1 as [|x l Hl IH Hx]; cbn [List.filter]; [constructor|].
  destruct (f x); [|exact IH]. constructor; [exact IH|].
  rewrite List.Forall_forall in *. intros y Hy. apply Hx.
  now apply List.filter_In in Hy.
Qed.

(** A snapshot of readable dates that is sorted is left alone by the render's
    sort. *)
Lemma sorted_is_settled (l : list JournalEntry) :
  Forall (wellDated host) l ->
  StronglySorted (SortFacts.byRank (fun e => - timeOf host e)) l ->
  sortedEntries host l = l.
Proof.
  intros Hwd Hs. apply SortFacts.sort_settled_id.
  apply StronglySorted_Sorted in Hs. unfold SortFacts.settled.
  induction Hs as [|x l Hl IH Hhd]; [constructor|].
  inversion Hwd as [|? ? Hx Hwd']; subst. constructor; [now apply IH|].
  destruct Hhd as [|y l' Hxy]; constructor.
  inversion Hwd' as [|? ? Hy _]; subst.
  rewrite (newestFirst_ranked host x y Hx Hy). apply Z.ltb_ge. exact Hxy.
Qed.

Lemma rendered_sorted (h : Hook) :
  rendered host h ->
  Forall (wellDated host) (entries h)
  /\ StronglySorted (SortFacts.byRank (fun e => - timeOf host e)) (entries h).
Proof.
  intros [Hwd Heq]. rewrite Heq. split; [now apply sortedEntries_wellDated|].
  apply (SortFacts.sort_sorted (newestFirst host) (wellDated host));
    auto using newestFirst_ranked.
Qed.

Lemma step_Delete (i : string) (h : Hook) (w : World) :
  step host toLocaleString (Delete i) h w = (render host (deleteEntry i (entries h)), w).
Proof. reflexivity. Qed.

Lemma step_Update (i : string) (p : UpdateEntryPayload) (h : Hook) (w : World) :
  step host toLocaleString (Update i p) h w
  = (render host (updateEntry i p (entries h)), w).
Proof. reflexivity. Qed.

Lemma deleteEntry_In (i : string) (l : list JournalEntry) (e : JournalEntry) :
  In e (deleteEntry i l) <-> In e l /\ id e <> i.
Proof.
  unfold deleteEntry. rewrite List.filter_In, negb_true_iff.
  now rewrite String.eqb_neq.
Qed.

Lemma updateEntry_ids (i : string) (p : UpdateEntryPayload) (l : list JournalEntry) :
  List.map id (updateEntry i p l) = List.map id l.
Proof.
  unfold updateEntry. rewrite List.map_map. apply List.map_ext.
  intros e. now destruct (String.eqb (id e) i).
Qed.

Lemma updateEntry_others (i : string) (p : UpdateEntryPayload) (l : list JournalEntry)
  (e : JournalEntry) :
  id e <> i -> (In e (updateEntry i p l) <-> In e l).
Proof.
  intros Hne. unfold updateEntry. rewrite List.in_map_iff. split.
  - intros (e0 & Heq & Hin). destruct (String.eqb_spec (id e0) i) as [Hi|Hi].
    + subst e. cbn [merge id] in Hne. contradiction.
    + now subst e0.
  - intros Hin. exists e. split; [|exact Hin].
    apply String.eqb_neq in Hne. now rewrite Hne.
Qed.

(** The entry [addEntry] builds from a payload and the world. *)
Lemma addEntry_nonblank (payload : NewEntryPayload) (prev : list JournalEntry) (w : World) :
  JsString.trim (newContent payload) <> "" ->
  fst (addEntry payload prev w)
  = Some (newEntry payload w :: prev).
Proof.
  intros Hne. unfold addEntry.
  destruct (JsString.trim (newContent payload)); [contradiction | reflexivity].
Qed.

Lemma step_Add (payload : NewEntryPayload) (h : Hook) (w : World) :
  JsString.trim (newContent payload) <> "" ->
  fst (step host toLocaleString (Add payload) h w)
  = render host
      (newEntry payload w :: entries h).
Proof.
  intros Hne. pose proof (addEntry_nonblank payload (entries h) w Hne) as Ha.
  unfold step, mbind, M_bind. cbn [setEntries].
  destruct (addEntry payload (entries h) w) as [r w']. cbn [fst] in Ha. now subst r.
Qed.

Lemma getTime_toISOString (e : JournalEntry) (t : Z) :
  JsDate.minTime <= t <= JsDate.maxTime ->
  date e = JsDate.toISOString t -> getTime host e = Some t.
Proof.
  intros Ht He. unfold getTime, JsDate.parse.
  now rewrite He, DateFacts.parseISO_toISOString.
Qed.

Lemma truthy_append_r (a b : string) :
  JsString.truthy b = true -> JsString.truthy (a +:+ b) = true.
Proof. destruct a; [now intros | reflexivity]. Qed.

Lemma truthy_append_l (a b : string) :
  JsString.truthy a = true -> JsString.truthy (a +:+ b) = true.
Proof. destruct a; [discriminate | reflexivity]. Qed.

(** The text of a timestamp is never empty, and so an id made of it is not
    either. *)
Lemma toISOString_truthy (t : Z) : JsString.truthy (JsDate.toISOString t) = true.
Proof.
  unfold JsDate.toISOString.
  destruct (JsDate.monthAndDay _ _ _) as [m d].
  apply truthy_append_r. reflexivity.
Qed.

Lemma freshId_truthy (w : World) : JsString.truthy (fst (freshId w)) = true.
Proof. apply truthy_append_l, toISOString_truthy. Qed.

Lemma sanitize_hasId (e : JournalEntry) (w : World) : hasId (fst (sanitize e w)).
Proof.
  unfold sanitize, hasId. destruct (JsString.truthy (id e)) eqn:He; [exact He|].
  apply freshId_truthy.
Qed.

Lemma sanitizedNewEntries_hasId (l : list JournalEntry) (w : World) :
  Forall hasId (fst (sanitizedNewEntries l w)).
Proof.
  revert w. induction l as [|e l IH]; intros w; [constructor|].
  cbn [sanitizedNewEntries]. unfold mbind, M_bind.
  pose proof (sanitize_hasId e w) as He.
  destruct (sanitize e w) as [e' w1]. specialize (IH w1).
  destruct (sanitizedNewEntries l w1) as [l' w2]. now constructor.
Qed.

(** Entries that have an id are not touched by the sanitizing pass. *)
Lemma sanitizedNewEntries_id (l : list JournalEntry) (w : World) :
  Forall hasId l -> sanitizedNewEntries l w = (l, w).
Proof.
  revert w. induction 1 as [|e l He Hl IH]; intros; [reflexivity|].
  cbn [sanitizedNewEntries]. unfold mbind, M_bind, sanitize. rewrite He.
  cbn. now rewrite IH.
Qed.

Lemma setEntries_hasId (op : Op) (prev : list JournalEntry) (w : World) :
  Forall hasId prev ->
  forall l, fst (setEntries host toLocaleString op prev w) = Some l -> Forall hasId l.
Proof.
  intros Hprev l Hl. destruct op; cbn [setEntries] in Hl.
  - apply addEntry_result in Hl as ->. constructor; [|exact Hprev].
    apply truthy_append_l, toISOString_truthy.
  - injection Hl as <-. rewrite List.Forall_forall in *.
    intros e He. apply Hprev. eapply deleteEntry_incl, He.
  - injection Hl as <-. unfold updateEntry. rewrite List.Forall_forall in *.
    intros e He. apply List.in_map_iff in He as (e0 & <- & He0).
    specialize (Hprev e0 He0). now destruct (String.eqb (id e0) i).
  - unfold mbind, M_bind in Hl.
    pose proof (importEntries_result host importedEntries prev w) as Hres.
    destruct (importEntries host importedEntries prev w) as [l' w']. cbn [fst] in *.
    injection Hl as <-. subst l'. apply SortFacts.sort_Forall, List.Forall_app.
    split; [apply sanitizedNewEntries_hasId | exact Hprev].
  - destruct (Nat.lt_ge_cases (length (List.filter (hasTicket t) prev)) 2) as [Hlt|Hge].
    + rewrite compile_few in Hl by exact Hlt. discriminate.
    + destruct (compile_many host toLocaleString t prev w Hge) as (newest & _ & Heq).
      rewrite Heq in Hl. injection Hl as <-. constructor.
      * apply truthy_append_l, toISOString_truthy.
      * rewrite List.Forall_forall in *. intros e He. apply Hprev.
        now apply List.filter_In in He.
Qed.

Lemma run_hasId (ops : list Op) (h : Hook) (w : World) :
  Forall hasId (entries h) ->
  Forall hasId (entries (fst (run host toLocaleString ops h w))).
Proof.
  revert h w. induction ops as [|op ops IH]; intros h w Hh; [exact Hh|].
  cbn [run]. unfold mbind, M_bind.
  pose proof (setEntries_hasId op (entries h) w Hh) as Hset.
  unfold step, mbind, M_bind.
  destruct (setEntries host toLocaleString op (entries h) w) as [[l|] w']; apply IH.
  - cbn [render entries]. apply SortFacts.sort_Forall. now apply Hset.
  - exact Hh.
Qed.

End OperationFacts.

(* ================================================================== *)
(** * More facts about the import and the compilation *)
(* ================================================================== *)

Section ReconcileFacts.

Variable host : string -> option Z.
Variable toLocaleString : option Z -> string.

(** The survivors of the filter have pairwise different signatures, none of
    which the set held. *)
Lemma uniqueNewEntries_fresh (seen : gset string) (imported : list JournalEntry) :
  NoDup (List.map signature (uniqueNewEntries seen imported))
  /\ forall e, In e (uniqueNewEntries seen imported) -> signature e ∉ seen.
Proof.
  revert seen. induction imported as [|e rest IH]; intros seen; cbn [uniqueNewEntries].
  - split; [constructor | intros e []].
  - destruct (bool_decide_reflect (signature e ∈ seen)) as [Hin|Hout]; [apply IH|].
    destruct (IH ({[signature e]} ∪ seen)) as [Hnd Hfresh].
    split.
    + cbn [List.map]. constructor; [|exact Hnd].
      intros Hdup. apply list_elem_of_In, List.in_map_iff in Hdup as (e' & Hsig & He').
      apply (Hfresh e' He'). rewrite Hsig. now apply elem_of_union_l, elem_of_singleton.
    + intros e' [<-|He']; [exact Hout|].
      intros Hin. apply (Hfresh e' He'). now apply elem_of_union_r.
Qed.

(** A batch with pairwise different signatures, none of them in the set,
    passes the filter whole. *)
Lemma uniqueNewEntries_all_new (seen : gset string) (imported : list JournalEntry) :
  NoDup (List.map signature imported) ->
  (forall e, In e imported -> signature e ∉ seen) ->
  uniqueNewEntries seen imported = imported.
Proof.
  revert seen. induction imported as [|e rest IH]; intros seen Hnd Hfresh; [reflexivity|].
  cbn [uniqueNewEntries]. cbn [List.map] in Hnd. apply NoDup_cons in Hnd as [Hhd Hnd].
  destruct (bool_decide_reflect (signature e ∈ seen)) as [Hin|Hout].
  - exfalso. apply (Hfresh e); [now left | exact Hin].
  - f_equal. apply IH; [exact Hnd|].
    intros e' He' Hin. apply elem_of_union in Hin as [Hin|Hin].
    + apply elem_of_singleton in Hin. apply Hhd. rewrite <- Hin.
      now apply list_elem_of_In, List.in_map.
    + apply (Hfresh e'); [now right | exact Hin].
Qed.

Lemma uniqueNewEntries_length (seen : gset string) (imported : list JournalEntry) :
  (length (uniqueNewEntries seen imported) <= length imported)%nat.
Proof.
  revert seen. induction imported as [|e rest IH]; intros seen; [reflexivity|].
  cbn [uniqueNewEntries length].
  destruct (bool_decide (signature e ∈ seen)); cbn [length].
  - specialize (IH seen). lia.
  - specialize (IH ({[signature e]} ∪ seen)). lia.
Qed.

Lemma sanitizedNewEntries_signatures (l : list JournalEntry) (w : World) :
  List.map signature (fst (sanitizedNewEntries l w)) = List.map signature l.
Proof.
  pose proof (sanitizedNewEntries_Forall2 l w) as H.
  induction H as [|e e' l l' He Hl IH]; [reflexivity|].
  cbn [List.map]. f_equal; [|exact IH]. now apply signature_sameButId.
Qed.

Lemma import_step_NoDup (imported : list JournalEntry) (h : Hook) (w : World) :
  NoDup (List.map signature (entries h)) ->
  NoDup (List.map signature
           (entries (fst (step host toLocaleString (Import imported) h w)))).
Proof.
  intros Hnd.
  rewrite (Permutation_map signature (import_step_perm host toLocaleString imported h w)).
  rewrite List.map_app, sanitizedNewEntries_signatures.
  destruct (uniqueNewEntries_fresh
              (list_to_set (List.map signature (entries h))) imported) as [Hnew Hfresh].
  apply NoDup_app. split; [exact Hnew | split; [|exact Hnd]].
  intros s Hs Hold. apply list_elem_of_In, List.in_map_iff in Hs as (e & <- & He).
  apply (Hfresh e He). apply elem_of_list_to_set, Hold.
Qed.

(** A batch that brings no new signature leaves the array as the sort of
    the render leaves it. *)
Lemma import_step_nothing_new (imported : list JournalEntry) (h : Hook) (w : World) :
  (forall e, In e imported ->
     exists e', In e' (entries h) /\ signature e' = signature e) ->
  entries (fst (step host toLocaleString (Import imported) h w))
  = sortedEntries host (sortedEntries host (entries h)).
Proof.
  intros Hseen. rewrite import_step.
  rewrite uniqueNewEntries_all_seen; [reflexivity|].
  intros e He. apply elem_of_signatures. now apply Hseen.
Qed.

(** The compiled entry bears the ticket, and no remaining entry does. *)
Lemma compile_bearers (t : string) (l : list JournalEntry) (w : World) :
  (2 <= length (List.filter (hasTicket t) l))%nat ->
  exists compiled,
    fst (compileEntriesByTicketNumber host toLocaleString t l w)
    = Some (compiled :: List.filter (fun e => negb (hasTicket t e)) l)
    /\ hasTicket t compiled = true
    /\ List.filter (hasTicket t)
         (compiled :: List.filter (fun e => negb (hasTicket t e)) l) = [compiled].
Proof.
  intros Hge. destruct (compile_many host toLocaleString t l w Hge) as (newest & _ & Heq).
  eexists. split; [exact Heq|].
  assert (Hc : forall s n, hasTicket t (compiledFrom host toLocaleString t s n w) = true).
  { intros s n. unfold hasTicket, compiledFrom. cbn [ticketNumber]. apply String.eqb_refl. }
  split; [apply Hc|].
  cbn [List.filter]. rewrite Hc. f_equal. clear.
  induction l as [|e l IH]; [reflexivity|].
  cbn [List.filter]. destruct (hasTicket t e) eqn:He; cbn [negb List.filter].
  - apply IH.
  - rewrite He. apply IH.
Qed.

(** The snapshot after a compilation that changes the state. *)
Lemma compile_step (t : string) (h : Hook) (w : World) :
  (2 <= length (List.filter (hasTicket t) (entries h)))%nat ->
  exists compiled,
    hasTicket t compiled = true
    /\ Permutation
         (entries (fst (step host toLocaleString (Compile t) h w)))
         (compiled :: List.filter (fun e => negb (hasTicket t e)) (entries h)).
Proof.
  intros Hge.
  destruct (compile_bearers t (entries h) w Hge) as (compiled & Heq & Hc & _).
  exists compiled. split; [exact Hc|].
  unfold step, mbind, M_bind. cbn [setEntries].
  destruct (compileEntriesByTicketNumber host toLocaleString t (entries h) w)
    as [r w1]. cbn [fst] in Heq. subst r. cbn [fst mret M_ret render entries].
  apply sortedEntries_perm.
Qed.

End ReconcileFacts.

(* ================================================================== *)
(** * More facts about the CSV adapter *)
(* ================================================================== *)

Section LineFacts.

Lemma parseLineFrom_comma (rest current : string) :
  parseLineFrom (String "," rest) current false = current :: parseLineFrom rest "" false.
Proof. reflexivity. Qed.

(** Outside quotes the characters of a plain field are appended to
    [current]. *)
Lemma parseLineFrom_plain (field rest current : string) :
  plain field = true ->
  parseLineFrom (field +:+ rest) current false
  = parseLineFrom rest (current +:+ field) false.
Proof.
  revert current. induction field as [|c field IH]; intros current Hp.
  - now rewrite append_empty_r.
  - cbn [plain] in Hp. apply andb_prop in Hp as [Hc Hp]. apply andb_prop in Hc as [Hc Hq].
    rewrite append_cons. cbn [parseLineFrom].
    apply negb_true_iff in Hc, Hq. rewrite Hq, Hc. cbn [andb].
    rewrite IH by exact Hp. now rewrite append_assoc, lit_append.
Qed.

(** Inside quotes the doubled field is read back up to the closing quote,
    provided no quote follows that one. *)
Lemma parseLineFrom_doubled (field rest current : string) :
  JsString.startsWith (String DQUOTE "") rest = false ->
  parseLineFrom (doubled field +:+ String DQUOTE rest) current true
  = parseLineFrom rest (current +:+ field) false.
Proof.
  intros Hrest. revert current. induction field as [|c field IH]; intros current.
  - rewrite append_empty_r. cbn [doubled]. change ("" +:+ String DQUOTE rest) with (String DQUOTE rest).
    cbn [parseLineFrom]. rewrite Ascii.eqb_refl.
    destruct rest as [|next rest']; [reflexivity|].
    cbn [JsString.startsWith] in Hrest. rewrite Ascii.eqb_sym.
    destruct (Ascii.eqb DQUOTE next); [discriminate | reflexivity].
  - cbn [doubled]. destruct (Ascii.eqb c DQUOTE) eqn:Hc.
    + apply Ascii.eqb_eq in Hc. subst c. rewrite !append_cons.
      cbn [parseLineFrom]. rewrite Ascii.eqb_refl. cbn [andb].
      rewrite IH. now rewrite append_assoc, lit_append.
    + rewrite append_cons. cbn [parseLineFrom]. rewrite Hc, andb_false_r.
      rewrite IH. now rewrite append_assoc, lit_append.
Qed.

(** A cell that writes a field is read back as the field, up to the comma
    or the end of the line that follows it. *)
Lemma parseLineFrom_cell (field cell rest : string) :
  writes field cell ->
  JsString.startsWith (String DQUOTE "") rest = false ->
  parseLineFrom (cell +:+ rest) "" false = parseLineFrom rest field false.
Proof.
  intros [->|[Hp ->]] Hrest.
  - assert (Hopen : forall s, parseLineFrom (String DQUOTE s) "" false
                              = parseLineFrom s "" true).
    { intros s. cbn [parseLineFrom]. rewrite Ascii.eqb_refl. now destruct s. }
    unfold quoted. rewrite append_cons, append_assoc, lit_append.
    rewrite Hopen, parseLineFrom_doubled by exact Hrest. reflexivity.
  - now rewrite parseLineFrom_plain.
Qed.

Lemma parseLine_cells (fields cells : list string) :
  Forall2 writes fields cells -> fields <> [] ->
  parseLine (JsString.join "," cells) = fields.
Proof.
  unfold parseLine. induction 1 as [|field cell fields cells Hw Hrest IH]; [easy|].
  intros _. destruct Hrest as [|field' cell' fields' cells' Hw' Hrest'].
  - cbn [JsString.join]. rewrite <- (append_empty_r cell).
    now rewrite (parseLineFrom_cell field cell "" Hw).
  - change (JsString.join "," (cell :: cell' :: cells'))
      with (cell +:+ "," +:+ JsString.join "," (cell' :: cells')).
    rewrite (parseLineFrom_cell field cell _ Hw) by reflexivity.
    change ("," +:+ JsString.join "," (cell' :: cells'))
      with (String "," (JsString.join "," (cell' :: cells'))).
    rewrite parseLineFrom_comma. f_equal. now apply IH.
Qed.

End LineFacts.

Lemma TimeClip_range (t t' : Z) :
  JsDate.TimeClip t = Some t' -> JsDate.minTime <= t' <= JsDate.maxTime.
Proof.
  unfold JsDate.TimeClip. destruct (_ && _) eqn:H; [|discriminate].
  intros [= <-]. lia.
Qed.

Lemma parseISO_range (s : string) (t : Z) :
  JsDate.parseISO s = Some t -> JsDate.minTime <= t <= JsDate.maxTime.
Proof.
  unfold JsDate.parseISO. intros H.
  destruct (JsDate.yearField s) as [[y s1]|]; [|discriminate]. cbn [mbind option_bind] in H.
  destruct (JsDate.dashField s1) as [[m s2]|]; [|discriminate]. cbn [mbind option_bind] in H.
  destruct (JsDate.dashField s2) as [[d s3]|]; [|discriminate]. cbn [mbind option_bind] in H.
  match type of H with (if ?b then _ else _) = _ => destruct b end; [|discriminate].
  destruct s3 as [|c s4]; [now apply TimeClip_range in H|].
  destruct (Ascii.eqb c "T"); [|discriminate].
  destruct (JsDate.utcTime s4) as [u|]; [|discriminate]. cbn [mbind option_bind] in H.
  now apply TimeClip_range in H.
Qed.

Section CsvMore.
Variable host : string -> option Z.

Lemma parse_range (s : string) (t : Z) :
  validHost host -> JsDate.parse host s = Some t ->
  JsDate.minTime <= t <= JsDate.maxTime.
Proof.
  intros Hhost. unfold JsDate.parse.
  destruct (JsDate.parseISO s) as [t'|] eqn:Hs.
  - intros [= <-]. now apply parseISO_range in Hs.
  - apply Hhost.
Qed.

Lemma rowDate_result (dateStr : option string) (w : World) :
  validHost host -> validClock w ->
  exists t, JsDate.minTime <= t <= JsDate.maxTime
            /\ fst (rowDate host dateStr w) = JsDate.toISOString t.
Proof.
  intros Hhost Hw. unfold rowDate.
  destruct (dateStr ≫= JsDate.parse host) as [t|] eqn:Ht.
  - exists t. split; [|reflexivity].
    destruct dateStr as [s|]; [|discriminate]. now apply (parse_range s).
  - exists (clock w 0%nat). split; [apply Hw | reflexivity].
Qed.

Lemma monotone_rowDate (dateStr : option string) : monotone (rowDate host dateStr).
Proof.
  unfold rowDate. destruct (dateStr ≫= JsDate.parse host);
    [apply monotone_ret | apply monotone_nowISO].
Qed.

Lemma monotone_parseRow (dateIdx textIdx : nat) (tagsIdx : option nat)
  (columns : list string) :
  monotone (parseRow host dateIdx textIdx tagsIdx columns).
Proof.
  unfold parseRow. destruct (ticketMatch _ _); [|apply monotone_ret].
  apply monotone_bind; [apply monotone_rowDate|]. intros d.
  apply monotone_bind; [apply monotone_freshId|]. intros i. apply monotone_ret.
Qed.

Lemma parseRow_wellFormed (dateIdx textIdx : nat) (tagsIdx : option nat)
  (columns : list string) (w : World) (e : JournalEntry) :
  validHost host -> validClock w ->
  fst (parseRow host dateIdx textIdx tagsIdx columns w) = Returns e ->
  wellFormed host e.
Proof.
  intros Hhost Hw. unfold parseRow.
  destruct (ticketMatch _ _) as [m|]; [|discriminate].
  unfold mbind, M_bind.
  destruct (rowDate_result (columns !! dateIdx) w Hhost Hw) as (t & Ht & Hd).
  destruct (rowDate host (columns !! dateIdx) w) as [d w1]. cbn [fst] in Hd. subst d.
  pose proof (freshId_truthy w1) as Hid.
  destruct (freshId w1) as [i w2]. cbn [fst] in Hid.
  destruct (columns !! textIdx) as [c|]; [|discriminate].
  intros [= <-]. split; [|split; [exact Hid | reflexivity]].
  exists t. now apply getTime_toISOString.
Qed.

Lemma parseRows_wellFormed (dateIdx textIdx : nat) (tagsIdx : option nat)
  (lines : list string) (entries : list JournalEntry) (w : World)
  (l : list JournalEntry) :
  validHost host -> validClock w -> Forall (wellFormed host) entries ->
  fst (parseRows host dateIdx textIdx tagsIdx lines entries w) = Returns l ->
  Forall (wellFormed host) l.
Proof.
  intros Hhost. revert entries w.
  induction lines as [|line lines IH]; intros entries w Hw Hacc.
  - now intros [= <-].
  - cbn [parseRows].
    destruct (negb (JsString.truthy (JsString.trim line))); [now apply IH|].
    destruct (length (parseLine line) <=? Nat.max dateIdx textIdx)%nat; [now apply IH|].
    unfold mbind, M_bind.
    pose proof (parseRow_wellFormed dateIdx textIdx tagsIdx (parseLine line) w) as Hrow.
    pose proof (monotone_parseRow dateIdx textIdx tagsIdx (parseLine line) w) as Hadv.
    destruct (parseRow host dateIdx textIdx tagsIdx (parseLine line) w) as [[e|err] w1];
      [|discriminate].
    cbn [fst snd] in *. apply IH.
    + now apply (validClock_advances w).
    + apply Forall_app. split; [exact Hacc|]. constructor; [|constructor].
      now apply Hrow.
Qed.

(** The parse returns unless the tags column lies to the right of both the
    date and the content column. *)
Lemma parseCSV_returns (text : string) (w : World) :
  let headers :=
    List.map header (parseLine (List.hd "" (JsString.splitLines "" text))) in
  (forall d c k,
     JsArray.findIndex isDateHeader headers = Some d ->
     JsArray.findIndex isTextHeader headers = Some c ->
     JsArray.findIndex isTagsHeader headers = Some k -> (k <= Nat.max d c)%nat) ->
  exists l, fst (parseCSV host text w) = Returns l.
Proof.
  intros headers Htags. unfold parseCSV.
  destruct (length (JsString.splitLines "" text) <? 2)%nat; [now exists []|].
  fold headers.
  destruct (JsArray.findIndex isDateHeader headers) as [dateIdx|]; [|now exists []].
  destruct (JsArray.findIndex isTextHeader headers) as [textIdx|]; [|now exists []].
  apply parseRows_returns. intros line k _ Hk Hlen.
  specialize (Htags dateIdx textIdx k eq_refl eq_refl Hk). lia.
Qed.

Lemma parseCSV_wellFormed (text : string) (w : World) (l : list JournalEntry) :
  validHost host -> validClock w ->
  fst (parseCSV host text w) = Returns l -> Forall (wellFormed host) l.
Proof.
  intros Hhost Hw. unfold parseCSV.
  destruct (length (JsString.splitLines "" text) <? 2)%nat; [now intros [= <-]|].
  destruct (JsArray.findIndex isDateHeader _) as [dateIdx|]; [|now intros [= <-]].
  destruct (JsArray.findIndex isTextHeader _) as [textIdx|]; [|now intros [= <-]].
  now apply parseRows_wellFormed.
Qed.

End CsvMore.

(* ================================================================== *)
(** * Facts about the ticket-number field *)
(* ================================================================== *)

Section TicketFacts.

Lemma rev_app_append (s acc : string) : String.rev_app s acc = String.rev s +:+ acc.
Proof.
  unfold String.rev. revert acc. induction s as [|c s IH]; intros acc; [reflexivity|].
  cbn [String.rev_app]. rewrite (IH (String c "")), IH.
  now rewrite append_assoc, lit_append.
Qed.

Lemma rev_cons (c : ascii) (s : string) : String.rev (String c s) = String.rev s +:+ String c "".
Proof. unfold String.rev at 1. cbn [String.rev_app]. apply rev_app_append. Qed.

Lemma rev_append (a b : string) : String.rev (a +:+ b) = String.rev b +:+ String.rev a.
Proof.
  induction a as [|c a IH].
  - change ("" +:+ b) with b. now rewrite append_empty_r.
  - rewrite append_cons, !rev_cons, IH. apply append_assoc.
Qed.

Lemma rev_involutive (s : string) : String.rev (String.rev s) = s.
Proof.
  induction s as [|c s IH]; [reflexivity|].
  rewrite rev_cons, rev_append, IH. reflexivity.
Qed.

Lemma removeAll_append (cls : ascii -> bool) (a b : string) :
  JsString.removeAll cls (a +:+ b) = JsString.removeAll cls a +:+ JsString.removeAll cls b.
Proof.
  induction a as [|c a IH]; [reflexivity|].
  rewrite append_cons. cbn [JsString.removeAll].
  destruct (cls c); [exact IH|]. now rewrite append_cons, IH.
Qed.

Lemma removeAll_rev (cls : ascii -> bool) (s : string) :
  JsString.removeAll cls (String.rev s) = String.rev (JsString.removeAll cls s).
Proof.
  induction s as [|c s IH]; [reflexivity|].
  rewrite rev_cons, removeAll_append, IH. cbn [JsString.removeAll].
  destruct (cls c); [apply append_empty_r|]. now rewrite rev_cons.
Qed.

Lemma removeAll_idempotent (cls : ascii -> bool) (s : string) :
  JsString.removeAll cls (JsString.removeAll cls s) = JsString.removeAll cls s.
Proof.
  induction s as [|c s IH]; [reflexivity|].
  cbn [JsString.removeAll]. destruct (cls c) eqn:Hc; [exact IH|].
  cbn [JsString.removeAll]. now rewrite Hc, IH.
Qed.

(** Induction three characters at a time. *)
Lemma by_threes (P : string -> Prop) :
  P "" -> (forall a, P (String a "")) -> (forall a b, P (String a (String b ""))) ->
  (forall a b c rest, P rest -> P (String a (String b (String c rest)))) ->
  forall s, P s.
Proof.
  intros H0 H1 H2 H3 s.
  assert (H : P s /\ (forall a, P (String a s)) /\ (forall a b, P (String a (String b s)))).
  { induction s as [|c s (IHs & IH1 & IH2)]; [now repeat split|].
    repeat split; [apply IH1 | intros a; apply IH2 |].
    intros a b. now apply H3. }
  apply H.
Qed.

(** The digits of the groups joined by spaces are the digits of the
    string. *)
Lemma digitsOnly_grouped (s : string) :
  digitsOnly (JsString.join " " (groupsOfThree s)) = digitsOnly s.
Proof.
  induction s as [| | |a b c rest IH] using by_threes; try reflexivity.
  cbn [groupsOfThree]. destruct rest as [|d rest]; [reflexivity|].
  destruct (groupsOfThree (String d rest)) as [|g gs] eqn:Hg.
  { destruct rest as [|? [|? ?]]; discriminate. }
  change (JsString.join " " (String a (String b (String c "")) :: g :: gs))
    with (String a (String b (String c "")) +:+ " " +:+ JsString.join " " (g :: gs)).
  unfold digitsOnly in *. rewrite !removeAll_append, IH.
  change (String a (String b (String c (String d rest))))
    with (String a (String b (String c "")) +:+ String d rest).
  now rewrite removeAll_append.
Qed.

Lemma formatTicketNumber_digits (value : string) :
  digitsOnly (formatTicketNumber value) = digitsOnly value.
Proof.
  unfold formatTicketNumber.
  destruct (digitsOnly value) as [|c d] eqn:Hd; [reflexivity|].
  cbn [JsString.truthy negb]. unfold digitsOnly at 1.
  rewrite removeAll_rev. fold (digitsOnly (JsString.join " " (groupsOfThree (String.rev (String c d))))).
  rewrite digitsOnly_grouped. unfold digitsOnly. rewrite removeAll_rev.
  fold (digitsOnly (String c d)). rewrite <- Hd. unfold digitsOnly.
  now rewrite removeAll_idempotent, rev_involutive.
Qed.

Lemma formatTicketNumber_idempotent (value : string) :
  formatTicketNumber (formatTicketNumber value) = formatTicketNumber value.
Proof.
  unfold formatTicketNumber at 1. rewrite formatTicketNumber_digits. reflexivity.
Qed.


Lemma length_append (a b : string) :
  String.length (a +:+ b) = (String.length a + String.length b)%nat.
Proof.
  induction a as [|c a IH]; [reflexivity|].
  rewrite append_cons. cbn [String.length]. now rewrite IH.
Qed.

Lemma length_rev (s : string) : String.length (String.rev s) = String.length s.
Proof.
  induction s as [|c s IH]; [reflexivity|].
  rewrite rev_cons, length_append, IH. cbn [String.length]. lia.
Qed.

Lemma length_grouped (s : string) :
  String.length (JsString.join " " (groupsOfThree s))
  = (String.length s + (String.length s - 1) / 3)%nat.
Proof.
  induction s as [| | |a b c rest IH] using by_threes; try reflexivity.
  cbn [groupsOfThree]. destruct rest as [|d rest]; [reflexivity|].
  destruct (groupsOfThree (String d rest)) as [|g gs] eqn:Hg.
  { destruct rest as [|? [|? ?]]; discriminate. }
  change (JsString.join " " (String a (String b (String c "")) :: g :: gs))
    with (String a (String b (String c "")) +:+ " " +:+ JsString.join " " (g :: gs)).
  rewrite !length_append, IH. cbn [String.length].
  set (m := String.length rest).
  replace (S (S (S (S m))) - 1)%nat with (1 * 3 + (S m - 1))%nat by lia.
  rewrite Nat.div_add_l by lia. lia.
Qed.

Lemma allOf_append (p : ascii -> bool) (a b : string) :
  allOf p (a +:+ b) = allOf p a && allOf p b.
Proof.
  induction a as [|c a IH]; [reflexivity|].
  rewrite append_cons. cbn [allOf]. now rewrite IH, andb_assoc.
Qed.

Lemma allOf_rev (p : ascii -> bool) (s : string) : allOf p (String.rev s) = allOf p s.
Proof.
  induction s as [|c s IH]; [reflexivity|].
  rewrite rev_cons, allOf_append, IH. cbn [allOf]. rewrite andb_true_r. apply andb_comm.
Qed.

Lemma allOf_weaken (p q : ascii -> bool) (s : string) :
  (forall c, p c = true -> q c = true) -> allOf p s = true -> allOf q s = true.
Proof.
  intros Hpq. induction s as [|c s IH]; [reflexivity|].
  cbn [allOf]. intros H. apply andb_prop in H as [Hc Hs].
  now rewrite (Hpq c Hc), IH.
Qed.

Lemma allOf_removeAll (p : ascii -> bool) (s : string) :
  allOf p (JsString.removeAll (fun c => negb (p c)) s) = true.
Proof.
  induction s as [|c s IH]; [reflexivity|].
  cbn [JsString.removeAll]. destruct (p c) eqn:Hc; cbn [negb]; [|exact IH].
  cbn [allOf]. now rewrite Hc, IH.
Qed.

Lemma allOf_grouped (p : ascii -> bool) (s : string) :
  p " "%char = true -> allOf p s = true ->
  allOf p (JsString.join " " (groupsOfThree s)) = true.
Proof.
  intros Hsp. induction s as [| | |a b c rest IH] using by_threes; try easy.
  intros Hs. cbn [groupsOfThree]. destruct rest as [|d rest]; [exact Hs|].
  destruct (groupsOfThree (String d rest)) as [|g gs] eqn:Hg.
  { destruct rest as [|? [|? ?]]; discriminate. }
  change (JsString.join " " (String a (String b (String c "")) :: g :: gs))
    with (String a (String b (String c "")) +:+ " " +:+ JsString.join " " (g :: gs)).
  change (String a (String b (String c (String d rest))))
    with (String a (String b (String c "")) +:+ String d rest) in Hs.
  rewrite allOf_append in Hs. apply andb_prop in Hs as [Habc Hrest].
  rewrite !allOf_append, Habc, IH by exact Hrest. cbn [allOf]. now rewrite Hsp.
Qed.

Lemma formatTicketNumber_shape (value : string) :
  allOf isDigitOrSpace (formatTicketNumber value) = true
  /\ String.length (formatTicketNumber value)
     = (String.length (digitsOnly value) + (String.length (digitsOnly value) - 1) / 3)%nat.
Proof.
  unfold formatTicketNumber.
  destruct (digitsOnly value) as [|c d] eqn:Hd; [now split|].
  cbn [JsString.truthy negb]. split.
  - rewrite allOf_rev. apply allOf_grouped; [reflexivity|].
    rewrite allOf_rev, <- Hd.
    apply (allOf_weaken JsString.isDigit); [|apply allOf_removeAll].
    intros ch Hch. unfold isDigitOrSpace. now rewrite Hch.
  - now rewrite length_rev, length_grouped, length_rev.
Qed.

Lemma get_append_l (a b : string) (k : nat) :
  (k < String.length a)%nat -> String.get k (a +:+ b) = String.get k a.
Proof.
  revert k. induction a as [|c a IH]; intros k Hk; [cbn in Hk; lia|].
  rewrite append_cons. destruct k as [|k]; [reflexivity|].
  cbn [String.get]. apply IH. cbn in Hk. lia.
Qed.

Lemma get_append_r (a b : string) (k : nat) :
  String.get (String.length a + k) (a +:+ b) = String.get k b.
Proof.
  induction a as [|c a IH]; [reflexivity|].
  rewrite append_cons. cbn [String.length Nat.add String.get]. exact IH.
Qed.

(** The character [k] places from the right end of [s] is the character
    [k] places from the left end of the reversed string. *)
Lemma get_rev (s : string) (k : nat) :
  (k < String.length s)%nat ->
  String.get (String.length s - 1 - k) s = String.get k (String.rev s).
Proof.
  revert k. induction s as [|c s IH]; intros k Hk; [cbn in Hk; lia|].
  rewrite rev_cons. cbn [String.length] in *.
  destruct (Nat.eq_dec k (String.length s)) as [->|Hne].
  - replace (S (String.length s) - 1 - String.length s)%nat with 0%nat by lia.
    pose proof (get_append_r (String.rev s) (String c "") 0) as Hlast.
    rewrite Nat.add_0_r, length_rev in Hlast. now rewrite Hlast.
  - rewrite get_append_l by (rewrite length_rev; lia).
    rewrite <- IH by lia.
    replace (S (String.length s) - 1 - k)%nat with (S (String.length s - 1 - k)) by lia.
    reflexivity.
Qed.

(** In the groups joined by spaces every fourth character is a space, and
    the others are the characters of the string. *)
Lemma grouped_places (p : ascii -> bool) (s : string) :
  allOf p s = true ->
  forall k c, String.get k (JsString.join " " (groupsOfThree s)) = Some c ->
  ((k mod 4)%nat = 3%nat -> c = " "%char) /\ ((k mod 4)%nat <> 3%nat -> p c = true).
Proof.
  induction s as [| a | a b | a b c0 rest IH] using by_threes; intros Hs k c.
  - destruct k; discriminate.
  - cbn [allOf] in Hs. apply andb_prop in Hs as [Ha _].
    destruct k as [|k]; cbn; [intros [= <-]; split; [discriminate | easy]|].
    destruct k; discriminate.
  - cbn [allOf] in Hs. apply andb_prop in Hs as [Ha Hs]. apply andb_prop in Hs as [Hb _].
    destruct k as [|[|k]]; cbn; try (intros [= <-]; split; [discriminate | easy]).
    destruct k; discriminate.
  - cbn [allOf] in Hs. apply andb_prop in Hs as [Ha Hs]. apply andb_prop in Hs as [Hb Hs].
    apply andb_prop in Hs as [Hc Hrest].
    cbn [groupsOfThree]. destruct rest as [|d rest].
    + destruct k as [|[|[|k]]]; cbn; try (intros [= <-]; split; [discriminate | easy]).
      destruct k; discriminate.
    + destruct (groupsOfThree (String d rest)) as [|g gs] eqn:Hg.
      { destruct rest as [|? [|? ?]]; discriminate. }
      change (JsString.join " " (String a (String b (String c0 "")) :: g :: gs))
        with (String a (String b (String c0 (String " " (JsString.join " " (g :: gs)))))).
      destruct k as [|[|[|[|k]]]]; cbn [String.get];
        try (intros [= <-]; split; [discriminate | easy]).
      * intros [= <-]. split; [reflexivity | intros H; now destruct H].
      * intros Hget. specialize (IH Hrest k c Hget).
        replace (S (S (S (S k))) mod 4)%nat with (k mod 4)%nat; [exact IH|].
        change (S (S (S (S k)))) with (4 + k)%nat.
        rewrite <- (Nat.Div0.add_mod_idemp_l 4 k 4). reflexivity.
Qed.

Lemma formatTicketNumber_places (value : string) (k : nat) (c : ascii) :
  let r := formatTicketNumber value in
  (k < String.length r)%nat ->
  String.get (String.length r - 1 - k) r = Some c ->
  ((k mod 4)%nat = 3%nat -> c = " "%char)
  /\ ((k mod 4)%nat <> 3%nat -> JsString.isDigit c = true).
Proof.
  intros r Hk. rewrite get_rev by exact Hk. subst r.
  unfold formatTicketNumber in *.
  destruct (digitsOnly value) as [|ch d] eqn:Hd; [cbn in Hk; lia|].
  cbn [JsString.truthy negb] in *. rewrite rev_involutive.
  apply grouped_places. rewrite allOf_rev, <- Hd. apply allOf_removeAll.
Qed.

End TicketFacts.

(* ================================================================== *)
(** * Facts about whole CSV files *)
(* ================================================================== *)

Section FileFacts.

Variable host : string -> option Z.

Lemma splitLines_line (s rest cur : string) :
  allOf noBreak s = true ->
  JsString.splitLines cur (s +:+ rest) = JsString.splitLines (cur +:+ s) rest.
Proof.
  revert cur. induction s as [|c s IH]; intros cur Hs.
  - now rewrite append_empty_r.
  - cbn [allOf] in Hs. apply andb_prop in Hs as [Hc Hs].
    unfold noBreak in Hc. apply andb_prop in Hc as [Hlf Hcr].
    apply negb_true_iff in Hlf, Hcr.
    rewrite append_cons. cbn [JsString.splitLines]. rewrite Hlf, Hcr. cbn [andb].
    transitivity (JsString.splitLines (cur +:+ String c "") (s +:+ rest));
      [now destruct (s +:+ rest)|].
    rewrite IH by exact Hs. now rewrite append_assoc, lit_append.
Qed.

Lemma splitLines_join (lines : list string) (line cur : string) :
  Forall (fun s => allOf noBreak s = true) (line :: lines) ->
  JsString.splitLines cur (JsString.join LF (line :: lines)) = (cur +:+ line) :: lines.
Proof.
  revert line cur. induction lines as [|next lines IH]; intros line cur Hall.
  - cbn [JsString.join]. rewrite <- (append_empty_r line) at 1.
    rewrite splitLines_line; [reflexivity | now inversion Hall].
  - change (JsString.join LF (line :: next :: lines))
      with (line +:+ LF +:+ JsString.join LF (next :: lines)).
    inversion Hall as [|? ? Hline Hrest]; subst.
    rewrite splitLines_line by exact Hline.
    change (LF +:+ JsString.join LF (next :: lines))
      with (String "010" (JsString.join LF (next :: lines))).
    cbn [JsString.splitLines]. rewrite Ascii.eqb_refl.
    now rewrite IH.
Qed.

(** A string with a character that is no white space is not blank. *)
Lemma trimEnd_ink (a b : string) (c : ascii) :
  JsString.isWhiteSpace c = false ->
  JsString.truthy (JsString.trimEnd (a +:+ String c b)) = true.
Proof.
  intros Hc. induction a as [|x a IH].
  - change ("" +:+ String c b) with (String c b). cbn [JsString.trimEnd].
    destruct (JsString.trimEnd b); [now rewrite Hc | reflexivity].
  - rewrite append_cons. cbn [JsString.trimEnd].
    destruct (JsString.trimEnd (a +:+ String c b)); [discriminate | reflexivity].
Qed.

Lemma trim_ink (a b : string) (c : ascii) :
  JsString.isWhiteSpace c = false ->
  JsString.truthy (JsString.trim (a +:+ String c b)) = true.
Proof.
  intros Hc. unfold JsString.trim. induction a as [|x a IH].
  - change ("" +:+ String c b) with (String c b). cbn [JsString.trimStart].
    rewrite Hc. now apply (trimEnd_ink "" b c).
  - rewrite append_cons. cbn [JsString.trimStart].
    destruct (JsString.isWhiteSpace x); [exact IH|].
    rewrite <- append_cons. now apply trimEnd_ink.
Qed.

Lemma allOf_doubled (s : string) :
  allOf noBreak s = true -> allOf noBreak (doubled s) = true.
Proof.
  induction s as [|c s IH]; [reflexivity|].
  cbn [allOf doubled]. intros H. apply andb_prop in H as [Hc Hs].
  destruct (Ascii.eqb c DQUOTE) eqn:Hq; cbn [allOf].
  - apply Ascii.eqb_eq in Hq. subst c. now rewrite IH.
  - now rewrite Hc, IH.
Qed.

Lemma csvLine_noBreak (r : string * string) :
  writable r -> allOf noBreak (csvLine r) = true.
Proof.
  intros (_ & Hd & Hc & _). unfold csvLine, quoted.
  rewrite !allOf_append, Hd. cbn [allOf andb].
  rewrite allOf_append, allOf_doubled by exact Hc. reflexivity.
Qed.

Lemma collapseQuotes_plain (s : string) :
  allOf notQuote s = true -> collapseQuotes s = s.
Proof.
  induction s as [|c s IH]; [reflexivity|].
  cbn [allOf]. intros H. apply andb_prop in H as [Hc Hs].
  cbn [collapseQuotes]. destruct s as [|d s']; [reflexivity|].
  unfold notQuote in Hc. apply negb_true_iff in Hc. rewrite Hc. cbn [andb].
  f_equal. now apply IH.
Qed.

Lemma stripQuotes_plain (s : string) :
  allOf notQuote s = true -> stripQuotes s = s.
Proof.
  intros Hs. unfold stripQuotes.
  assert (Hfirst : match s with
                   | String c s' => if Ascii.eqb c DQUOTE then s' else s
                   | EmptyString => s
                   end = s).
  { destruct s as [|c s']; [reflexivity|]. cbn [allOf] in Hs.
    apply andb_prop in Hs as [Hc _]. unfold notQuote in Hc.
    apply negb_true_iff in Hc. now rewrite Hc. }
  rewrite Hfirst. pose proof (allOf_rev notQuote s) as Hrev. rewrite Hs in Hrev.
  destruct (String.rev s) as [|c r]; [reflexivity|].
  cbn [allOf] in Hrev. apply andb_prop in Hrev as [Hc _]. unfold notQuote in Hc.
  apply negb_true_iff in Hc. now rewrite Hc.
Qed.

Lemma parseLine_csvLine (r : string * string) :
  writable r -> parseLine (csvLine r) = [fst r; snd r].
Proof.
  intros (Hd & _). unfold csvLine.
  apply (parseLine_cells [fst r; snd r] [fst r; quoted (snd r)]); [|discriminate].
  constructor; [now right|]. constructor; [now left | constructor].
Qed.

(** The body of the loop on a line of the file. *)
Lemma parseRow_csvLine (r : string * string) (w : World) :
  writable r ->
  exists e, fst (parseRow host 0 1 None [fst r; snd r] w) = Returns e /\ readAs host r e.
Proof.
  intros (_ & _ & _ & Hq). unfold parseRow.
  change ([fst r; snd r] !! 0%nat) with (Some (fst r)).
  change ([fst r; snd r] !! 1%nat) with (Some (snd r)).
  assert (Htags : RegExp.exec ticketInTags "" = None) by (vm_compute; reflexivity).
  cbn [ticketMatch]. rewrite Htags. unfold mbind at 1 2, M_bind.
  assert (Hdate : forall t, JsDate.parse host (fst r) = Some t ->
                            fst (rowDate host (Some (fst r)) w) = JsDate.toISOString t).
  { intros t Ht. unfold rowDate. cbn [mbind option_bind]. now rewrite Ht. }
  destruct (rowDate host (Some (fst r)) w) as [d w1]. cbn [fst] in Hdate.
  destruct (freshId w1) as [i w2]. eexists. split; [reflexivity|].
  unfold readAs. cbn [content date ticketNumber imageUrl].
  rewrite stripQuotes_plain, collapseQuotes_plain by exact Hq. now repeat split.
Qed.

Lemma parseRows_csvLines (rows : list (string * string)) (acc : list JournalEntry)
  (w : World) :
  Forall writable rows ->
  exists l, fst (parseRows host 0 1 None (List.map csvLine rows) acc w)
            = Returns (acc ++ l)%list
            /\ Forall2 (readAs host) rows l.
Proof.
  revert acc w. induction rows as [|r rows IH]; intros acc w Hall.
  - exists []. split; [now rewrite List.app_nil_r | constructor].
  - inversion Hall as [|? ? Hr Hrest]; subst.
    cbn [List.map parseRows].
    assert (Hink : JsString.truthy (JsString.trim (csvLine r)) = true)
      by (unfold csvLine; now apply trim_ink).
    rewrite Hink, (parseLine_csvLine r Hr). cbn [negb length Nat.max Nat.leb].
    unfold mbind, M_bind.
    destruct (parseRow_csvLine r w Hr) as (e & He & Hread).
    destruct (parseRow host 0 1 None [fst r; snd r] w) as [res w1].
    cbn [fst] in He. subst res.
    destruct (IH (acc ++ [e])%list w1 Hrest) as (l & Hl & Hreads).
    exists (e :: l). split; [|now constructor].
    rewrite Hl. now rewrite <- List.app_assoc.
Qed.

Lemma parseCSV_csvFile (rows : list (string * string)) (w : World) :
  Forall writable rows ->
  exists l, fst (parseCSV host (csvFile rows) w) = Returns l
            /\ Forall2 (readAs host) rows l.
Proof.
  intros Hall. unfold parseCSV, csvFile.
  assert (Hlines : JsString.splitLines ""
                     ("date,content" +:+ LF +:+ JsString.join LF (List.map csvLine rows))
                   = "date,content"
                     :: match rows with
                        | [] => [""]
                        | _ => List.map csvLine rows
                        end).
  { rewrite splitLines_line by reflexivity.
    change (LF +:+ JsString.join LF (List.map csvLine rows))
      with (String "010" (JsString.join LF (List.map csvLine rows))).
    cbn [JsString.splitLines]. rewrite Ascii.eqb_refl. f_equal.
    destruct rows as [|r rows]; [reflexivity|].
    cbn [List.map]. rewrite splitLines_join; [reflexivity|].
    change (Forall (fun s => allOf noBreak s = true) (List.map csvLine (r :: rows))).
    apply List.Forall_map. eapply List.Forall_impl; [|exact Hall].
    apply csvLine_noBreak. }
  rewrite Hlines.
  assert (Htwo : (length ("date,content"
                          :: match rows with
                             | [] => [""]
                             | _ => List.map csvLine rows
                             end) <? 2)%nat = false).
  { destruct rows; reflexivity. }
  rewrite Htwo. cbn [List.hd List.tl].
  replace (List.map header (parseLine "date,content")) with ["date"; "content"]
    by (vm_compute; reflexivity).
  replace (JsArray.findIndex isDateHeader ["date"; "content"]) with (Some 0%nat)
    by (vm_compute; reflexivity).
  replace (JsArray.findIndex isTextHeader ["date"; "content"]) with (Some 1%nat)
    by (vm_compute; reflexivity).
  replace (JsArray.findIndex isTagsHeader ["date"; "content"]) with (@None nat)
    by (vm_compute; reflexivity).
  destruct rows as [|r rows]; [exists []; split; [reflexivity | constructor]|].
  apply (parseRows_csvLines (r :: rows) [] w Hall).
Qed.

End FileFacts.

(* ================================================================== *)
(** * Facts about the list of entries, the card and the prompt *)
(* ================================================================== *)

Section ListFacts.

Variable inherited : string -> bool.
Variable host : string -> option Z.
Variable toLocaleString : option Z -> string.

Lemma hasTicket_eq (t : string) (e : JournalEntry) :
  hasTicket t e = true <-> ticketNumber e = Some t.
Proof.
  unfold hasTicket. destruct (ticketNumber e) as [t'|]; [|easy].
  rewrite String.eqb_eq. split; congruence.
Qed.

(** The loop adds, under every counted name, the number of entries that
    bear it. *)
Lemma fold_countTicket (l : list JournalEntry) (counts : gmap string nat) (t : string) :
  List.fold_left (countTicket inherited) l counts !! t
  = if counted inherited t && (0 <? length (List.filter (hasTicket t) l))%nat
    then Some (default 0 (counts !! t) + length (List.filter (hasTicket t) l))%nat
    else counts !! t.
Proof.
  revert counts. induction l as [|e l IH]; intros counts.
  - cbn. now rewrite andb_false_r.
  - cbn [List.fold_left List.filter]. rewrite IH. unfold countTicket.
    destruct (hasTicket t e) eqn:Ht.
    + apply hasTicket_eq in Ht. rewrite Ht. fold (counted inherited t).
      destruct (counted inherited t); cbn [andb]; [|reflexivity].
      rewrite lookup_insert_eq. cbn [length].
      destruct (length (List.filter (hasTicket t) l)) as [|n]; cbn; f_equal; lia.
    + assert (Hother : forall t', ticketNumber e = Some t' -> t' <> t).
      { intros t' He ->. apply hasTicket_eq in He. congruence. }
      destruct (ticketNumber e) as [t'|]; [|reflexivity].
      destruct (JsString.truthy t' && negb (inherited t')); [|reflexivity].
      rewrite lookup_insert_ne by now apply Hother. reflexivity.
Qed.

Lemma ticketCounts_lookup (l : list JournalEntry) (t : string) :
  ticketCounts inherited l !! t
  = if counted inherited t && (0 <? length (List.filter (hasTicket t) l))%nat
    then Some (length (List.filter (hasTicket t) l))
    else None.
Proof.
  unfold ticketCounts. rewrite fold_countTicket, lookup_empty. reflexivity.
Qed.

Lemma isCompilable_spec (l : list JournalEntry) (e : JournalEntry) :
  isCompilable inherited l e = true
  <-> exists t, ticketNumber e = Some t /\ JsString.truthy t = true
                /\ inherited t = false
                /\ (2 <= length (List.filter (hasTicket t) l))%nat.
Proof.
  unfold isCompilable. destruct (ticketNumber e) as [t|].
  - rewrite ticketCounts_lookup. unfold counted. split.
    + intros H. exists t. apply andb_prop in H as [Ht H]. rewrite Ht in H.
      destruct (inherited t); [discriminate|]. cbn [negb andb] in H.
      destruct (0 <? _)%nat; [|discriminate]. apply Nat.ltb_lt in H. now repeat split.
    + intros (t' & [= <-] & Ht & Hi & Hn). rewrite Ht, Hi. cbn [negb andb].
      destruct (Nat.ltb_spec 0 (length (List.filter (hasTicket t) l))); [|lia].
      now apply Nat.ltb_lt.
  - split; [discriminate | now intros (t & Ht & _)].
Qed.

End ListFacts.

Section CardFacts.

Variable host : string -> option Z.

Lemma parse_toISOString (t : Z) :
  JsDate.minTime <= t <= JsDate.maxTime ->
  JsDate.parse host (JsDate.toISOString t) = Some t.
Proof.
  intros Ht. unfold JsDate.parse. now rewrite DateFacts.parseISO_toISOString.
Qed.

(** Typing keeps the date of the card one that can be read. *)
Lemma onChange_date (edit : Edit) (card card' : Card) :
  validHost host ->
  is_Some (JsDate.parse host (editedDate card)) ->
  onChange host edit card = Returns card' ->
  is_Some (JsDate.parse host (editedDate card')).
Proof.
  intros Hhost Hd. destruct edit as [value|value|value]; cbn [onChange].
  - now intros [= <-].
  - now intros [= <-].
  - destruct (JsDate.parse host value) as [t|] eqn:Ht; [|discriminate].
    intros [= <-]. cbn [editedDate]. exists t.
    apply parse_toISOString. now apply (parse_range host value).
Qed.

Lemma typing_date (edits : list Edit) (card : Card) :
  validHost host ->
  is_Some (JsDate.parse host (editedDate card)) ->
  is_Some (JsDate.parse host (editedDate (typing host edits card))).
Proof.
  intros Hhost. revert card. induction edits as [|edit edits IH]; intros card Hd; [exact Hd|].
  cbn [typing]. pose proof (onChange_date edit card) as Hstep.
  destruct (onChange host edit card) as [card'|]; apply IH; [|exact Hd].
  now apply Hstep.
Qed.

Lemma handleSave_payload (card : Card) (p : UpdateEntryPayload) :
  handleSave card = Some p ->
  JsString.trim (editedContent card) <> ""
  /\ p = {| updContent := Some (editedContent card);
            updDate := Some (editedDate card);
            updTicketNumber := Some (Some (editedTicketNumber card));
            updImageUrl := None |}.
Proof.
  unfold handleSave. destruct (JsString.trim (editedContent card)) eqn:Ht; [discriminate|].
  now intros [= <-].
Qed.

End CardFacts.

Section PromptFacts.

Variable host : string -> option Z.
Variable toLocaleDateString : option Z -> string.

Lemma containsInOrder_app (parts parts' : list string) (s s' : string) :
  containsInOrder parts s -> containsInOrder parts' s' ->
  containsInOrder (parts ++ parts')%list (s +:+ s').
Proof.
  intros H H'. induction H as [s|before part rest parts H IH].
  - now apply containsInOrder_after.
  - rewrite !append_assoc. cbn [app]. now constructor.
Qed.

Lemma containsInOrder_one (before part rest : string) :
  containsInOrder [part] (before +:+ part +:+ rest).
Proof. repeat constructor. Qed.

Lemma entryText_contains (e : JournalEntry) :
  containsInOrder [content e] (entryText host toLocaleDateString e).
Proof.
  unfold entryText. cbv zeta.
  set (ticketInfo := match ticketNumber e with Some _ => _ | None => _ end).
  replace ("---" +:+ LF +:+ ticketInfo +:+ "Date: "
           +:+ toLocaleDateString (getTime host e) +:+ LF +:+ "Content:" +:+ LF
           +:+ content e +:+ LF +:+ "---")
    with (("---" +:+ LF +:+ ticketInfo +:+ "Date: "
           +:+ toLocaleDateString (getTime host e) +:+ LF +:+ "Content:" +:+ LF)
          +:+ content e +:+ (LF +:+ "---"))
    by now rewrite !append_assoc.
  apply containsInOrder_one.
Qed.

Lemma entriesText_contains (l : list JournalEntry) :
  containsInOrder (List.map content l)
    (JsString.join (LF +:+ LF) (List.map (entryText host toLocaleDateString) l)).
Proof.
  induction l as [|e l IH]; [constructor|].
  cbn [List.map JsString.join].
  destruct (List.map (entryText host toLocaleDateString) l) as [|x xs] eqn:Hl.
  - destruct l; [|discriminate]. apply entryText_contains.
  - change (content e :: List.map content l) with (([content e] ++ List.map content l)%list).
    apply containsInOrder_app; [apply entryText_contains|].
    now apply containsInOrder_after.
Qed.

Lemma buildPrompt_contains (question : string) (l : list JournalEntry) :
  containsInOrder (List.map content l ++ [question])%list
    (buildPrompt host toLocaleDateString question l).
Proof.
  unfold buildPrompt. cbv zeta.
  do 3 apply containsInOrder_after.
  apply containsInOrder_app; [apply entriesText_contains|].
  replace (LF +:+ LF +:+ "Question: " +:+ String DQUOTE question +:+ String DQUOTE "")
    with ((LF +:+ LF +:+ "Question: " +:+ String DQUOTE "") +:+ question
          +:+ String DQUOTE "").
  - apply containsInOrder_one.
  - rewrite !append_assoc. do 3 f_equal.
Qed.

End PromptFacts.

(* ================================================================== *)
(** * The snapshot is sorted (C1) *)
(* ================================================================== *)

Section SortInvariant.

Variable host : string -> option Z.
Variable toLocaleString : option Z -> string.

(** C1, as amended.  Start from any stored entries and apply any sequence of
    add, update, delete, import and compile.  If every date that comes in
    can be read (the dates of the initial entries, of the imported entries
    and of the update payloads; the dates the clock gives to new entries
    always can), then the entries the hook returns are sorted
    by date, the most recent first, and the entries of one and the same
    instant stand in the order they had in the array that was committed
    last. *)
Theorem snapshot_sorted_and_stable
  (initial : list JournalEntry) (ops : list Op) (w : World) :
  Forall (wellDated host) initial ->
  Forall (wellDatedOp host) ops ->
  validClock w ->
  let h := fst (run host toLocaleString ops (mount host initial) w) in
  Forall (wellDated host) (entries h)
  /\ sortedDescending host (entries h)
  /\ forall t, List.filter (atTime host t) (entries h)
               = List.filter (atTime host t) (working h).
Proof.
  intros Hinit Hops Hw h.
  assert (Hr : rendered host h).
  { apply run_rendered; auto. split; [exact Hinit | reflexivity]. }
  destruct Hr as [Hwd Heq]. rewrite Heq. repeat split.
  - now apply sortedEntries_wellDated.
  - now apply sortedEntries_sorted.
  - intros t. now apply sortedEntries_stable.
Qed.

End SortInvariant.

Lemma snapshot_sorted_and_stable_witness :
  let h := fst (run Sample.strictHost Sample.plainLocale Sample.session
                  (mount Sample.strictHost INITIAL_ENTRIES) Sample.world) in
  Forall (wellDated Sample.strictHost) (entries h)
  /\ sortedDescending Sample.strictHost (entries h)
  /\ forall t, List.filter (atTime Sample.strictHost t) (entries h)
               = List.filter (atTime Sample.strictHost t) (working h).
Proof.
  apply (snapshot_sorted_and_stable Sample.strictHost Sample.plainLocale
           INITIAL_ENTRIES Sample.session Sample.world).
  - repeat constructor; eexists; vm_compute; reflexivity.
  - repeat constructor; try (eexists; vm_compute; reflexivity).
  - intros n. vm_compute. split; discriminate.
Defined.

(** C1 as it is written fails: after importing, into an empty store, a
    backup of four entries of which the third has a date that cannot be read,
    the snapshot is the backup in its own order, with the entry of 2020 in
    front of the entry of 2024.  No comparison the sort makes on this array
    ever tells it to move an entry. *)
Lemma snapshot_unsorted_after_undated_import :
  let h := fst (run Sample.strictHost Sample.plainLocale [Import Sample.backup]
                  (mount Sample.strictHost []) Sample.world) in
  entries h = Sample.backup /\ ~ sortedDescending Sample.strictHost (entries h).
Proof.
  intros h.
  assert (Hh : entries h = Sample.backup) by (vm_compute; reflexivity).
  split; [exact Hh|]. rewrite Hh. intros Hs.
  apply StronglySorted_inv in Hs as [_ Hall].
  rewrite List.Forall_forall in Hall.
  assert (Hle : 1704067200000 <= 1577836800000).
  { apply (Hall (Sample.entry "c" "2024-01-01T00:00:00.000Z" "Replacement." None)).
    - right; right; left; reflexivity.
    - vm_compute; reflexivity.
    - vm_compute; reflexivity. }
  lia.
Qed.

(* ================================================================== *)
(** * Compilation (C2) *)
(* ================================================================== *)

Section Compilation.

Variable host : string -> option Z.
Variable toLocaleString : option Z -> string.

(** C2, as amended.  In a state where [N >= 2] entries bear the ticket
    number and the dates of these entries can be read, compiling leaves
    [count - N + 1] entries: the entries of other tickets, and one new
    entry.  The new entry has a newly generated id (the clock's timestamp,
    then a random draw), the ticket number, the date and the image of a
    source that no other source is more recent than, and a content in which
    the contents of all the sources follow one another from the oldest to
    the most recent. *)
Theorem compile_replaces_sources (h : Hook) (t : string) (w : World) :
  let sources := List.filter (hasTicket t) (entries h) in
  let remaining := List.filter (fun e => negb (hasTicket t e)) (entries h) in
  let h' := fst (step host toLocaleString (Compile t) h w) in
  Forall (wellDated host) sources ->
  (2 <= length sources)%nat ->
  exists compiled newest sorted,
    fst (compileEntriesByTicketNumber host toLocaleString t (entries h) w)
      = Some (compiled :: remaining)
    /\ Permutation (entries h') (compiled :: remaining)
    /\ length (entries h') = (length (entries h) - length sources + 1)%nat
    /\ id compiled = JsDate.toISOString (clock w 0%nat) +:+ random w 0%nat
    /\ ticketNumber compiled = Some t
    /\ latestOf host sources newest
    /\ date compiled = date newest
    /\ imageUrl compiled = imageUrl newest
    /\ Permutation sorted sources
    /\ sortedAscending host sorted
    /\ containsInOrder (List.map content sorted) (content compiled).
Proof.
  intros sources remaining h' Hwd Hlen.
  destruct (compile_many host toLocaleString t (entries h) w Hlen)
    as (newest & Hlast & Hres).
  fold sources remaining in Hlast, Hres.
  set (sorted := JsArray.sort (oldestFirst host) sources) in *.
  exists (compiledFrom host toLocaleString t sorted newest w), newest, sorted.
  assert (Hh' : entries h'
                = sortedEntries host
                    (compiledFrom host toLocaleString t sorted newest w :: remaining)).
  { subst h'. unfold step, mbind, M_bind. cbn [setEntries].
    destruct (compileEntriesByTicketNumber host toLocaleString t (entries h) w)
      as [r w'] eqn:Hc.
    cbn [fst] in Hres. subst r. reflexivity. }
  assert (Hperm : Permutation (entries h')
                    (compiledFrom host toLocaleString t sorted newest w :: remaining)).
  { rewrite Hh'. apply sortedEntries_perm. }
  repeat split; try reflexivity.
  - exact Hres.
  - exact Hperm.
  - rewrite (Permutation_length Hperm). cbn [length].
    pose proof (List.filter_length (hasTicket t) (entries h)) as Hsum.
    fold sources remaining in Hsum. lia.
  - now apply oldestFirst_last_latest in Hlast as (Hin & _ & _).
  - now apply oldestFirst_last_latest in Hlast as (_ & Hdated & _).
  - now apply oldestFirst_last_latest in Hlast as (_ & _ & Hmax).
  - apply SortFacts.sort_perm.
  - now apply oldestFirst_sorted.
  - apply compiledContent_contains.
Qed.

End Compilation.

Lemma compile_replaces_sources_witness :
  let h := render Sample.strictHost
             (Sample.entry "5" "2024-06-01" "Second visit." (Some "2 382 182")
              :: INITIAL_ENTRIES) in
  let t := "2 382 182" in
  let sources := List.filter (hasTicket t) (entries h) in
  let remaining := List.filter (fun e => negb (hasTicket t e)) (entries h) in
  let h' := fst (step Sample.strictHost Sample.plainLocale (Compile t) h Sample.world) in
  exists compiled newest sorted,
    fst (compileEntriesByTicketNumber Sample.strictHost Sample.plainLocale t (entries h)
           Sample.world)
      = Some (compiled :: remaining)
    /\ Permutation (entries h') (compiled :: remaining)
    /\ length (entries h') = (length (entries h) - length sources + 1)%nat
    /\ id compiled
       = JsDate.toISOString (clock Sample.world 0%nat) +:+ random Sample.world 0%nat
    /\ ticketNumber compiled = Some t
    /\ latestOf Sample.strictHost sources newest
    /\ date compiled = date newest
    /\ imageUrl compiled = imageUrl newest
    /\ Permutation sorted sources
    /\ sortedAscending Sample.strictHost sorted
    /\ containsInOrder (List.map content sorted) (content compiled).
Proof.
  intros h t.
  apply (compile_replaces_sources Sample.strictHost Sample.plainLocale h t Sample.world).
  - replace (List.filter (hasTicket t) (entries h))
      with [ Sample.entry "5" "2024-06-01" "Second visit." (Some "2 382 182");
             List.nth 0 INITIAL_ENTRIES (Sample.entry "" "" "" None) ]
      by (vm_compute; reflexivity).
    repeat constructor; eexists; vm_compute; reflexivity.
  - vm_compute. lia.
Defined.

(** C2 as it is written fails: of two entries of one ticket, the first dated
    2024 and the second with a date that cannot be read, the comparator has
    nothing to say, the second stays last, and the compiled entry takes its
    date, which is not the latest date of the two: it is no date. *)
Lemma compile_undated_takes_unreadable_date :
  let h := mount Sample.strictHost Sample.halfDated in
  let sources := List.filter (hasTicket "8") (entries h) in
  exists compiled rest,
    fst (compileEntriesByTicketNumber Sample.strictHost Sample.plainLocale "8" (entries h)
           Sample.world)
      = Some (compiled :: rest)
    /\ date compiled = "yesterday"
    /\ ~ exists newest,
          latestOf Sample.strictHost sources newest /\ date compiled = date newest.
Proof.
  intros h sources. eexists. eexists.
  split; [vm_compute; reflexivity|]. split; [reflexivity|].
  intros (newest & (Hin & [t Ht] & _) & Hdate).
  unfold getTime in Ht. rewrite <- Hdate in Ht. cbn [date] in Ht.
  vm_compute in Ht. discriminate Ht.
Qed.

(** With a third, older entry behind the unreadable one, the compiled entry
    takes the date of the oldest source. *)
Lemma compile_undated_takes_older_date :
  let h := mount Sample.strictHost Sample.undated in
  let sources := List.filter (hasTicket "7") (entries h) in
  exists compiled rest,
    fst (compileEntriesByTicketNumber Sample.strictHost Sample.plainLocale "7" (entries h)
           Sample.world)
      = Some (compiled :: rest)
    /\ ~ exists newest,
          latestOf Sample.strictHost sources newest /\ date compiled = date newest.
Proof.
  intros h sources. eexists. eexists. split; [vm_compute; reflexivity|].
  intros (newest & (Hin & _ & Hmax) & Hdate).
  assert (Hsrc : sources = Sample.undated) by (vm_compute; reflexivity).
  rewrite Hsrc in Hin, Hmax.
  assert (Hle : 1704067200000 <= 1672531200000).
  { destruct Hin as [<-|[<-|[<-|[]]]]; try discriminate Hdate.
    apply (Hmax (Sample.entry "a" "2024-01-01T00:00:00.000Z" "Later visit." (Some "7")));
      [left; reflexivity | vm_compute; reflexivity ..]. }
  lia.
Qed.

(* ================================================================== *)
(** * Import (C3, C10) *)
(* ================================================================== *)

Section Reconciler.

Variable host : string -> option Z.
Variable toLocaleString : option Z -> string.

(** C3.  Importing a batch and then the same batch again: at the second
    import every candidate is found in the set of signatures and dropped,
    and the state has the same entries, up to their order, and so the same
    number of entries, as after the first import. *)
Theorem import_twice_is_import_once
  (h : Hook) (batch : list JournalEntry) (w w' : World) :
  let h1 := fst (step host toLocaleString (Import batch) h w) in
  let h2 := fst (step host toLocaleString (Import batch) h1 w') in
  uniqueNewEntries (list_to_set (List.map signature (entries h1))) batch = []
  /\ length (entries h2) = length (entries h1)
  /\ Permutation (entries h2) (entries h1).
Proof.
  intros h1 h2.
  assert (Hnone : uniqueNewEntries
                    (list_to_set (List.map signature (entries h1))) batch = []).
  { apply uniqueNewEntries_all_seen. intros e He.
    now apply import_step_signatures. }
  assert (Hperm : Permutation (entries h2) (entries h1)).
  { subst h2. rewrite import_step_perm, Hnone. reflexivity. }
  repeat split; auto. now apply Permutation_length.
Qed.

(** C10.  After an import every entry that was in the state is still there,
    as it was, as often as it was: the new state is the old entries together
    with entries that are candidates of the batch, the [id] apart, in some
    order. *)
Theorem import_keeps_existing (h : Hook) (batch : list JournalEntry) (w : World) :
  let h1 := fst (step host toLocaleString (Import batch) h w) in
  (forall e, In e (entries h) -> In e (entries h1))
  /\ exists added,
       Permutation (entries h1) (added ++ entries h)
       /\ Forall (fun a => exists c, In c batch /\ sameButId c a) added.
Proof.
  intros h1. split.
  { intros e He. eapply Permutation_in; [symmetry; apply import_step_perm|].
    apply List.in_app_iff. now right. }
  eexists. split; [apply import_step_perm|].
  apply List.Forall_forall. intros a Ha.
  destruct (Forall2_In_r _ _ _ a (sanitizedNewEntries_Forall2 _ w) Ha)
    as (c & Hc & Hsame).
  exists c. split; [|exact Hsame]. eapply uniqueNewEntries_incl, Hc.
Qed.

End Reconciler.

(* ================================================================== *)
(** * Compiling a ticket that has at most one entry (C8) *)
(* ================================================================== *)

Section CompileNoOp.

Variable host : string -> option Z.
Variable toLocaleString : option Z -> string.

(** C8.  When no entry or exactly one entry bears the ticket number,
    compiling returns without a state update: the hook, with its entries and
    all their fields, stays as it is, nothing is rendered or written again,
    and neither the clock nor the random source is read. *)
Theorem compile_single_is_noop (h : Hook) (t : string) (w : World) :
  (length (List.filter (hasTicket t) (entries h)) <= 1)%nat ->
  compileEntriesByTicketNumber host toLocaleString t (entries h) w = (None, w)
  /\ step host toLocaleString (Compile t) h w = (h, w).
Proof.
  intros Hlen.
  assert (Hc : compileEntriesByTicketNumber host toLocaleString t (entries h) w
               = (None, w)) by (apply compile_few; lia).
  split; [exact Hc|].
  unfold step, mbind, M_bind. cbn [setEntries]. now rewrite Hc.
Qed.

End CompileNoOp.

Lemma compile_single_is_noop_witness :
  let h := mount Sample.strictHost INITIAL_ENTRIES in
  compileEntriesByTicketNumber Sample.strictHost Sample.plainLocale "2 382 182"
    (entries h) Sample.world = (None, Sample.world)
  /\ step Sample.strictHost Sample.plainLocale (Compile "2 382 182") h Sample.world
     = (h, Sample.world).
Proof.
  intros h.
  apply (compile_single_is_noop Sample.strictHost Sample.plainLocale h
           "2 382 182" Sample.world).
  vm_compute. lia.
Defined.

(* ================================================================== *)
(** * Update (C9) *)
(* ================================================================== *)

Section Update.

Variable host : string -> option Z.
Variable toLocaleString : option Z -> string.


End Update.


(* ================================================================== *)
(** * Creation with a blank text (C4) *)
(* ================================================================== *)

(** C4, on the input where the code departs from it.  The form lets a blank
    text with an attached image be submitted, and [addEntry] returns without a
    state update: no entry is created. *)
Theorem add_drops_image_only_entry (prev : list JournalEntry) (w : World) :
  submitDisabled Sample.blankText Sample.attachedImage = false
  /\ addEntry (handleSubmit Sample.blankText "" Sample.attachedImage) prev w = (None, w).
Proof. split; reflexivity. Qed.

(** What [addEntry] does decide on: the text alone. *)
Lemma addEntry_noop_iff (payload : NewEntryPayload) (prev : list JournalEntry) (w : World) :
  fst (addEntry payload prev w) = None
  <-> JsString.trim (newContent payload) = "".
Proof.
  unfold addEntry. destruct (JsString.trim (newContent payload)); simpl.
  - split; reflexivity.
  - split; discriminate.
Qed.

(* ================================================================== *)
(** * The signature of an entry (C5) *)
(* ================================================================== *)

(** C5, on the input where the code departs from it.  A candidate that
    differs from the only entry of the state in its date and in its content
    has the same signature, and the import drops it. *)
Theorem import_drops_entry_of_other_date_and_content :
  let h := mount Sample.strictHost [Sample.monthNote] in
  date Sample.dayNote <> date Sample.monthNote
  /\ content Sample.dayNote <> content Sample.monthNote
  /\ wellDated Sample.strictHost Sample.dayNote
  /\ wellDated Sample.strictHost Sample.monthNote
  /\ signature Sample.dayNote = signature Sample.monthNote
  /\ uniqueNewEntries (list_to_set (List.map signature (entries h))) [Sample.dayNote] = []
  /\ entries (fst (step Sample.strictHost Sample.plainLocale (Import [Sample.dayNote]) h
                     Sample.world))
     = [Sample.monthNote].
Proof.
  repeat split; try discriminate; try (eexists; vm_compute; reflexivity);
    vm_compute; reflexivity.
Qed.

(** Between dates of one length, as [toISOString] writes them, the signature
    does tell the pairs apart. *)
Lemma signature_injective (a b : JournalEntry) :
  String.length (date a) = String.length (date b) ->
  signature a = signature b -> date a = date b /\ content a = content b.
Proof.
  unfold signature. generalize (date a) (date b) (content a) (content b).
  intros da. induction da as [|x da IH]; intros [|y db] ca cb Hlen Hsig;
    try discriminate Hlen.
  - injection Hsig as Hc. now split.
  - injection Hlen as Hlen. injection Hsig as Hx Hrest.
    destruct (IH db ca cb Hlen Hrest) as [Hd Hc]. split; congruence.
Qed.

(* ================================================================== *)
(** * The CSV adapter (C6, C7) *)
(* ================================================================== *)

(** C6, as amended.  The text with the header [date,content,tags] and the row
    [2024-01-01,(quoted) Fixed, it,12 345 678] parses to exactly one entry:
    its content is [Fixed, it], its ticket number is [12 345 678] with the
    spaces between the digits kept, and its date is the timestamp of midnight
    UTC of 2024-01-01.  Its id is newly generated. *)
Theorem csv_round_trip (host : string -> option Z) (w : World) :
  fst (parseCSV host Sample.csvRoundTrip w)
  = Returns [ {| id := JsDate.toISOString (clock w 0%nat) +:+ random w 0%nat;
                 content := "Fixed, it";
                 date := "2024-01-01T00:00:00.000Z";
                 ticketNumber := Some "12 345 678";
                 imageUrl := None |} ].
Proof. reflexivity. Qed.

(** C6 as it is written fails: the ticket number of the parsed entry is not
    the digits alone. *)
Lemma csv_round_trip_keeps_spaces :
  ~ exists e, fst (parseCSV Sample.strictHost Sample.csvRoundTrip Sample.world) = Returns [e]
              /\ ticketNumber e = Some "12345678".
Proof.
  intros (e & He & Ht). rewrite csv_round_trip_value in He.
  injection He as <-. discriminate Ht.
Qed.

(** C7, on the input where the code departs from it.  With a tags column in
    the header, a row that has the date and the content and stops there is not
    skipped: reading its tags gives [undefined], the call of [match] on it
    throws, and the parse returns no entries at all, not even the one of the
    complete row before it. *)
Theorem csv_short_row_throws (host : string -> option Z) (w : World) :
  JsString.splitLines "" Sample.csvShortRow
  = ["date,content,tags"; "2024-01-01,first,1 234 567"; "2024-01-02,hello"]
  /\ parseLine "2024-01-02,hello" = ["2024-01-02"; "hello"]
  /\ fst (parseCSV host Sample.csvShortRow w) = Throws "TypeError".
Proof. repeat split; reflexivity. Qed.

(* ================================================================== *)
(** * Delete and update *)
(* ================================================================== *)

Section DeleteUpdate.

Variable host : string -> option Z.
Variable toLocaleString : option Z -> string.

(** X1.  After [deleteEntry] the snapshot holds exactly the entries it held
    before whose id is not the deleted one: every entry with that id goes,
    also when several share it, and no other entry goes or changes. *)
Theorem delete_removes_exactly_the_id (h : Hook) (i : string) (w : World) :
  let h' := fst (step host toLocaleString (Delete i) h w) in
  (forall e, In e (entries h') <-> In e (entries h) /\ id e <> i)
  /\ Permutation (entries h') (deleteEntry i (entries h))
  /\ (length (entries h') <= length (entries h))%nat.
Proof.
  intros h'.
  assert (Hperm : Permutation (entries h') (deleteEntry i (entries h))).
  { subst h'. rewrite step_Delete. apply sortedEntries_perm. }
  split; [|split].
  - intros e. rewrite <- deleteEntry_In. split; apply Permutation_in;
      [exact Hperm | symmetry; exact Hperm].
  - exact Hperm.
  - rewrite (Permutation_length Hperm). unfold deleteEntry. apply List.filter_length_le.
Qed.

(** X2.  In a state whose dates can be read, deleting keeps the order of the
    snapshot: the new snapshot is the old one with the entries of that id
    taken out. *)
Theorem delete_keeps_order (h : Hook) (i : string) (w : World) :
  rendered host h ->
  entries (fst (step host toLocaleString (Delete i) h w)) = deleteEntry i (entries h).
Proof.
  intros Hr. destruct (rendered_sorted host h Hr) as [Hwd Hs].
  rewrite step_Delete. cbn [fst render entries].
  apply sorted_is_settled.
  - rewrite List.Forall_forall in *. intros e He. apply Hwd.
    now apply deleteEntry_In in He.
  - now apply filter_sorted.
Qed.

(** X3.  [updateEntry] neither adds nor removes an entry and never changes an
    id: the snapshot has the same ids as before, and the entries with another
    id are the same entries as before. *)
Theorem update_keeps_ids_and_other_entries
  (h : Hook) (i : string) (p : UpdateEntryPayload) (w : World) :
  let h' := fst (step host toLocaleString (Update i p) h w) in
  Permutation (List.map id (entries h')) (List.map id (entries h))
  /\ length (entries h') = length (entries h)
  /\ (forall e, id e <> i -> (In e (entries h') <-> In e (entries h))).
Proof.
  intros h'.
  assert (Hperm : Permutation (entries h') (updateEntry i p (entries h))).
  { subst h'. rewrite step_Update. apply sortedEntries_perm. }
  split; [|split].
  - rewrite <- (updateEntry_ids i p (entries h)). now apply Permutation_map.
  - rewrite (Permutation_length Hperm). unfold updateEntry. apply List.length_map.
  - intros e He. rewrite <- (updateEntry_others i p (entries h) e He).
    split; apply Permutation_in; [exact Hperm | symmetry; exact Hperm].
Qed.

End DeleteUpdate.

Lemma delete_keeps_order_witness :
  let h := mount Sample.strictHost INITIAL_ENTRIES in
  entries (fst (step Sample.strictHost Sample.plainLocale (Delete "4") h Sample.world))
  = deleteEntry "4" (entries h).
Proof.
  intros h.
  apply (delete_keeps_order Sample.strictHost Sample.plainLocale h "4" Sample.world).
  split; [|reflexivity].
  repeat constructor; eexists; vm_compute; reflexivity.
Defined.

(* ================================================================== *)
(** * Creation *)
(* ================================================================== *)

Section Creation.

Variable host : string -> option Z.
Variable toLocaleString : option Z -> string.

(** X4.  [addEntry] with a content that is not blank adds exactly one entry to
    the snapshot.  The entry carries the content, the ticket number and the
    image of the payload as they are, an id made of the clock's timestamp and
    a random draw, and as its date the clock's next reading, which [new Date]
    reads back. *)
Theorem add_creates_one_entry (h : Hook) (payload : NewEntryPayload) (w : World) :
  JsString.trim (newContent payload) <> "" ->
  validClock w ->
  let h' := fst (step host toLocaleString (Add payload) h w) in
  exists e,
    Permutation (entries h') (e :: entries h)
    /\ length (entries h') = S (length (entries h))
    /\ content e = newContent payload
    /\ ticketNumber e = newTicketNumber payload
    /\ imageUrl e = newImageUrl payload
    /\ id e = JsDate.toISOString (clock w 0%nat) +:+ random w 0%nat
    /\ hasId e
    /\ getTime host e = Some (clock w 1%nat).
Proof.
  intros Hne Hw h'. subst h'. rewrite (step_Add host toLocaleString payload h w Hne).
  exists (newEntry payload w). split; [apply sortedEntries_perm|].
  split; [cbn [render entries]; unfold sortedEntries; now rewrite SortFacts.sort_length|].
  repeat split.
  - apply truthy_append_l, toISOString_truthy.
  - apply getTime_toISOString; [apply Hw | reflexivity].
Qed.

(** X5.  In a state whose dates can be read, when the clock is not behind
    the date of the first entry of the snapshot, the entry [addEntry] creates
    becomes the first entry and the others keep their places. *)
Theorem add_puts_newest_first (h : Hook) (w : World) (payload : NewEntryPayload) :
  let h' := fst (step host toLocaleString (Add payload) h w) in
  rendered host h ->
  JsString.trim (newContent payload) <> "" ->
  validClock w ->
  (forall first t, List.head (entries h) = Some first -> getTime host first = Some t ->
     t <= clock w 1%nat) ->
  exists e, entries h' = e :: entries h /\ content e = newContent payload.
Proof.
  intros h' Hr Hne Hw Hfirst. subst h'.
  destruct (rendered_sorted host h Hr) as [Hwd Hs].
  assert (Hnew : getTime host (newEntry payload w) = Some (clock w 1%nat))
    by (apply getTime_toISOString; [apply Hw | reflexivity]).
  rewrite (step_Add host toLocaleString payload h w Hne).
  exists (newEntry payload w). split; [|reflexivity].
  cbn [render entries]. apply sorted_is_settled.
  - constructor; [now exists (clock w 1%nat) | exact Hwd].
  - constructor; [exact Hs|].
    destruct (entries h) as [|first rest]; [constructor|].
    inversion Hwd as [|? ? [t Ht] _]; subst.
    specialize (Hfirst first t eq_refl Ht).
    assert (Hhead : SortFacts.byRank (fun e => - timeOf host e)
                      (newEntry payload w) first).
    { unfold SortFacts.byRank, timeOf. rewrite Hnew, Ht. cbn. lia. }
    constructor; [exact Hhead|].
    apply StronglySorted_inv in Hs as [_ Hrest].
    eapply List.Forall_impl; [|exact Hrest].
    unfold SortFacts.byRank in *. intros e He. lia.
Qed.

(** X6.  No operation leaves an entry without an id: when the stored entries
    all have one, so do the entries of every later snapshot, whatever is added,
    updated, deleted, imported (an imported entry without an id is given one)
    or compiled. *)
Theorem ids_are_never_empty (initial : list JournalEntry) (ops : list Op) (w : World) :
  Forall hasId initial ->
  Forall hasId (entries (fst (run host toLocaleString ops (mount host initial) w))).
Proof.
  intros Hinit. apply run_hasId. cbn [mount render entries].
  now apply SortFacts.sort_Forall.
Qed.

End Creation.

Lemma add_creates_one_entry_witness :
  let h := mount Sample.strictHost INITIAL_ENTRIES in
  let h' := fst (step Sample.strictHost Sample.plainLocale (Add Sample.note) h
                   Sample.world) in
  exists e,
    Permutation (entries h') (e :: entries h)
    /\ length (entries h') = S (length (entries h))
    /\ content e = newContent Sample.note
    /\ ticketNumber e = newTicketNumber Sample.note
    /\ imageUrl e = newImageUrl Sample.note
    /\ id e = JsDate.toISOString (clock Sample.world 0%nat) +:+ random Sample.world 0%nat
    /\ hasId e
    /\ getTime Sample.strictHost e = Some (clock Sample.world 1%nat).
Proof.
  intros h.
  apply (add_creates_one_entry Sample.strictHost Sample.plainLocale h Sample.note
           Sample.world).
  - discriminate.
  - intros n. vm_compute. split; discriminate.
Defined.

Lemma add_puts_newest_first_witness :
  let h := mount Sample.strictHost
             [Sample.entry "1" "2023-06-05T10:00:00.000Z" "Fixed the XYZ model."
                (Some "2 382 182")] in
  let h' := fst (step Sample.strictHost Sample.plainLocale (Add Sample.note) h
                   Sample.world) in
  exists e, entries h' = e :: entries h /\ content e = newContent Sample.note.
Proof.
  intros h.
  apply (add_puts_newest_first Sample.strictHost Sample.plainLocale h Sample.world
           Sample.note).
  - split; [|reflexivity]. repeat constructor; eexists; vm_compute; reflexivity.
  - discriminate.
  - intros n. vm_compute. split; discriminate.
  - intros first t Hfirst Ht. injection Hfirst as <-.
    vm_compute in Ht. injection Ht as <-. vm_compute. intros H; inversion H.
Defined.

Lemma ids_are_never_empty_witness :
  Forall hasId
    (entries (fst (run Sample.strictHost Sample.plainLocale Sample.session
                     (mount Sample.strictHost INITIAL_ENTRIES) Sample.world))).
Proof.
  apply (ids_are_never_empty Sample.strictHost Sample.plainLocale INITIAL_ENTRIES
           Sample.session Sample.world).
  repeat constructor.
Defined.

(* ================================================================== *)
(** * Import and compilation, once more *)
(* ================================================================== *)

Section Reconciliation.

Variable host : string -> option Z.
Variable toLocaleString : option Z -> string.

(** X7.  An import never makes two entries of the snapshot share a
    signature (date, dash, content): when the signatures of the snapshot
    are pairwise different before [importEntries], they are pairwise
    different after it, also when the batch repeats a signature. *)
Theorem import_keeps_signatures_distinct
  (h : Hook) (imported : list JournalEntry) (w : World) :
  NoDup (List.map signature (entries h)) ->
  NoDup (List.map signature
           (entries (fst (step host toLocaleString (Import imported) h w)))).
Proof. apply import_step_NoDup. Qed.

(** X8.  In a state whose dates can be read, importing entries whose
    signatures the snapshot already holds, such as the journal's own backup,
    leaves the snapshot as it is, order included. *)
Theorem import_of_known_entries_changes_nothing
  (h : Hook) (imported : list JournalEntry) (w : World) :
  rendered host h ->
  (forall e, In e imported ->
     exists e', In e' (entries h) /\ signature e' = signature e) ->
  entries (fst (step host toLocaleString (Import imported) h w)) = entries h.
Proof.
  intros Hr Hknown.
  rewrite (import_step_nothing_new host toLocaleString imported h w Hknown).
  destruct (rendered_sorted host h Hr) as [Hwd Hs].
  assert (Hsorted : sortedEntries host (entries h) = entries h)
    by now apply sorted_is_settled.
  now rewrite !Hsorted.
Qed.

(** X9.  A backup restores into an empty journal: when the dates of the
    snapshot can be read, every entry has an id and no two share a
    signature, importing the snapshot into a journal without entries gives
    the same snapshot, in the same order and with the same ids. *)
Theorem backup_restores_into_empty_journal (h : Hook) (w : World) :
  rendered host h ->
  Forall hasId (entries h) ->
  NoDup (List.map signature (entries h)) ->
  entries (fst (step host toLocaleString (Import (entries h)) (mount host []) w))
  = entries h.
Proof.
  intros Hr Hids Hnd.
  destruct (rendered_sorted host h Hr) as [Hwd Hs].
  assert (Hsorted : sortedEntries host (entries h) = entries h)
    by now apply sorted_is_settled.
  rewrite import_step.
  cbn [mount render entries sortedEntries JsArray.sort List.map].
  rewrite uniqueNewEntries_all_new; [|exact Hnd|].
  - rewrite sanitizedNewEntries_id by exact Hids. cbn [fst].
    rewrite List.app_nil_r. fold (sortedEntries host (entries h)).
    now rewrite !Hsorted.
  - intros e _. rewrite list_to_set_nil. apply not_elem_of_empty.
Qed.

(** X10.  After a compilation that changed the state exactly one entry bears
    the ticket number, and compiling the same ticket number again changes
    nothing and reads neither the clock nor the random source. *)
Theorem compile_again_is_noop (h : Hook) (t : string) (w w' : World) :
  (2 <= length (List.filter (hasTicket t) (entries h)))%nat ->
  let h' := fst (step host toLocaleString (Compile t) h w) in
  length (List.filter (hasTicket t) (entries h')) = 1%nat
  /\ step host toLocaleString (Compile t) h' w' = (h', w').
Proof.
  intros Hge h'.
  assert (Hone : length (List.filter (hasTicket t) (entries h')) = 1%nat).
  { destruct (compile_bearers host toLocaleString t (entries h) w Hge)
      as (compiled & Heq & _ & Hfilter).
    subst h'. unfold step, mbind, M_bind. cbn [setEntries].
    destruct (compileEntriesByTicketNumber host toLocaleString t (entries h) w)
      as [r w1]. cbn [fst] in Heq. subst r. cbn [fst mret M_ret render entries].
    rewrite (Permutation_length
               (filter_perm (hasTicket t) _ _ (sortedEntries_perm host _))).
    now rewrite Hfilter. }
  split; [exact Hone|].
  unfold step, mbind, M_bind. cbn [setEntries].
  rewrite compile_few by lia. reflexivity.
Qed.

(** X11.  [compileEntriesByTicketNumber] touches the entries of its ticket
    number only: the entries of the snapshot that do not bear the ticket
    number are the same before and after, whether or not anything was
    compiled. *)
Theorem compile_keeps_other_tickets (h : Hook) (t : string) (w : World) :
  let h' := fst (step host toLocaleString (Compile t) h w) in
  forall e, In e (entries h') /\ hasTicket t e = false
            <-> In e (entries h) /\ hasTicket t e = false.
Proof.
  intros h' e.
  destruct (Nat.lt_ge_cases (length (List.filter (hasTicket t) (entries h))) 2)
    as [Hlt|Hge].
  - subst h'. unfold step, mbind, M_bind. cbn [setEntries].
    rewrite compile_few by exact Hlt. reflexivity.
  - destruct (compile_bearers host toLocaleString t (entries h) w Hge)
      as (compiled & Heq & Hc & _).
    assert (Hperm : Permutation (entries h')
                      (compiled :: List.filter (fun e => negb (hasTicket t e)) (entries h))).
    { subst h'. unfold step, mbind, M_bind. cbn [setEntries].
      destruct (compileEntriesByTicketNumber host toLocaleString t (entries h) w)
        as [r w1]. cbn [fst] in Heq. subst r. cbn [fst mret M_ret render entries].
      apply sortedEntries_perm. }
    split; intros [Hin He]; (split; [|exact He]).
    + apply (Permutation_in _ Hperm) in Hin as [<-|Hin]; [congruence|].
      now apply List.filter_In in Hin.
    + apply (Permutation_in _ (Permutation_sym Hperm)). right.
      apply List.filter_In. now rewrite He.
Qed.

(** X16.  An import never shrinks the snapshot and adds at most as many
    entries as the batch holds. *)
Theorem import_grows_by_at_most_the_batch
  (h : Hook) (imported : list JournalEntry) (w : World) :
  let h' := fst (step host toLocaleString (Import imported) h w) in
  (length (entries h) <= length (entries h') <= length (entries h) + length imported)%nat.
Proof.
  intros h'. subst h'.
  rewrite (Permutation_length (import_step_perm host toLocaleString imported h w)).
  rewrite List.length_app.
  rewrite <- (Forall2_length _ _ _ (sanitizedNewEntries_Forall2 _ w)).
  pose proof (uniqueNewEntries_length
                (list_to_set (List.map signature (entries h))) imported).
  lia.
Qed.

End Reconciliation.

Lemma import_keeps_signatures_distinct_witness :
  NoDup (List.map signature
           (entries (fst (step Sample.strictHost Sample.plainLocale (Import Sample.batch)
                            (mount Sample.strictHost INITIAL_ENTRIES) Sample.world)))).
Proof.
  apply (import_keeps_signatures_distinct Sample.strictHost Sample.plainLocale).
  apply (bool_decide_unpack _). vm_compute. exact I.
Defined.

Lemma import_of_known_entries_changes_nothing_witness :
  let h := mount Sample.strictHost INITIAL_ENTRIES in
  entries (fst (step Sample.strictHost Sample.plainLocale (Import INITIAL_ENTRIES) h
                  Sample.world))
  = entries h.
Proof.
  intros h.
  apply (import_of_known_entries_changes_nothing Sample.strictHost Sample.plainLocale
           h INITIAL_ENTRIES Sample.world).
  - split; [|reflexivity]. repeat constructor; eexists; vm_compute; reflexivity.
  - intros e He. exists e. split; [|reflexivity].
    apply (proj2 (SortFacts.sort_In _ e INITIAL_ENTRIES)), He.
Defined.

Lemma backup_restores_into_empty_journal_witness :
  let h := mount Sample.strictHost INITIAL_ENTRIES in
  entries (fst (step Sample.strictHost Sample.plainLocale (Import (entries h))
                  (mount Sample.strictHost []) Sample.world))
  = entries h.
Proof.
  intros h.
  apply (backup_restores_into_empty_journal Sample.strictHost Sample.plainLocale h
           Sample.world).
  - split; [|reflexivity]. repeat constructor; eexists; vm_compute; reflexivity.
  - apply SortFacts.sort_Forall. repeat constructor.
  - apply (bool_decide_unpack _). vm_compute. exact I.
Defined.

Lemma compile_again_is_noop_witness :
  let h := render Sample.strictHost
             (Sample.entry "5" "2024-06-01" "Second visit." (Some "2 382 182")
              :: INITIAL_ENTRIES) in
  let h' := fst (step Sample.strictHost Sample.plainLocale (Compile "2 382 182") h
                   Sample.world) in
  length (List.filter (hasTicket "2 382 182") (entries h')) = 1%nat
  /\ step Sample.strictHost Sample.plainLocale (Compile "2 382 182") h' Sample.world
     = (h', Sample.world).
Proof.
  intros h.
  apply (compile_again_is_noop Sample.strictHost Sample.plainLocale h "2 382 182"
           Sample.world Sample.world).
  vm_compute. lia.
Defined.

(* ================================================================== *)
(** * The CSV adapter *)
(* ================================================================== *)

(** X12.  [parseLine] reads a line of cells back as the fields they write: a
    field may be written between double quotes with its own double quotes
    doubled, and then may hold commas, or as it is when it holds neither a
    comma nor a double quote. *)
Theorem csv_line_reads_back (fields cells : list string) :
  Forall2 writes fields cells -> fields <> [] ->
  parseLine (JsString.join "," cells) = fields.
Proof. apply parseLine_cells. Qed.

Lemma csv_line_reads_back_witness :
  parseLine (JsString.join ","
               ["2024-01-01"; quoted ("Fixed, " +:+ String DQUOTE "it" +:+ String DQUOTE "");
                quoted ""; "12 345 678"])
  = ["2024-01-01"; "Fixed, " +:+ String DQUOTE "it" +:+ String DQUOTE ""; "";
     "12 345 678"].
Proof.
  apply (csv_line_reads_back
           ["2024-01-01"; "Fixed, " +:+ String DQUOTE "it" +:+ String DQUOTE ""; "";
            "12 345 678"]).
  - repeat constructor; first [now left | now right].
  - discriminate.
Defined.

Section CsvImport.

Variable host : string -> option Z.
Variable toLocaleString : option Z -> string.

(** X13.  [parseCSV] returns, whatever the rows hold, unless the header has
    a tags column to the right of both the date and the content column. *)
Theorem csv_parse_returns (text : string) (w : World) :
  let headers :=
    List.map header (parseLine (List.hd "" (JsString.splitLines "" text))) in
  (forall d c k,
     JsArray.findIndex isDateHeader headers = Some d ->
     JsArray.findIndex isTextHeader headers = Some c ->
     JsArray.findIndex isTagsHeader headers = Some k -> (k <= Nat.max d c)%nat) ->
  exists l, fst (parseCSV host text w) = Returns l.
Proof. apply parseCSV_returns. Qed.

(** X14.  Every entry [parseCSV] returns has a date that can be read (the
    date of the row, or the current time when the row's date cannot be
    read), an id that is not empty, and no image. *)
Theorem csv_entries_are_well_formed (text : string) (w : World) (l : list JournalEntry) :
  validHost host -> validClock w ->
  fst (parseCSV host text w) = Returns l -> Forall (wellFormed host) l.
Proof. apply parseCSV_wellFormed. Qed.

(** X15.  Importing what [parseCSV] returned keeps a snapshot whose dates can
    be read in that state, sorted with the most recent entry first. *)
Theorem csv_import_keeps_snapshot_sorted
  (h : Hook) (text : string) (w w' : World) (l : list JournalEntry) :
  validHost host -> validClock w -> validClock w' -> rendered host h ->
  fst (parseCSV host text w) = Returns l ->
  let h' := fst (step host toLocaleString (Import l) h w') in
  Forall (wellDated host) (entries h') /\ sortedDescending host (entries h').
Proof.
  intros Hhost Hw Hw' Hh Hl h'.
  assert (Hop : wellDatedOp host (Import l)).
  { cbn [wellDatedOp]. eapply List.Forall_impl; [|exact (parseCSV_wellFormed host text w l Hhost Hw Hl)].
    now intros e [He _]. }
  destruct (step_rendered host toLocaleString (Import l) h w' Hop Hw' Hh) as [[Hwd Heq] _].
  fold h' in Hwd, Heq. rewrite Heq.
  split; [now apply sortedEntries_wellDated | now apply sortedEntries_sorted].
Qed.

(** X23.  A file with the header [date,content] and one line for each row,
    the date as it is and the content between double quotes, is read back row
    by row, provided the dates hold no comma, no double quote and no line
    break and the contents hold no double quote and no line break:
    [parseCSV] returns one entry for each row, in the order of the rows,
    with the content of the row (commas included) and its date. *)
Theorem csv_file_reads_back (rows : list (string * string)) (w : World) :
  Forall writable rows ->
  exists l, fst (parseCSV host (csvFile rows) w) = Returns l
            /\ Forall2 (readAs host) rows l.
Proof. apply parseCSV_csvFile. Qed.

End CsvImport.

Lemma csv_parse_returns_witness :
  exists l,
    fst (parseCSV Sample.strictHost
           ("label,date,note" +:+ LF +:+ ",2024-01-02,hello" +:+ LF +:+ "oops")
           Sample.world)
    = Returns l.
Proof.
  apply (csv_parse_returns Sample.strictHost).
  intros d c k. vm_compute. intros [= <-] [= <-] [= <-]. lia.
Defined.

Lemma csv_entries_are_well_formed_witness :
  Forall (wellFormed Sample.strictHost)
    [ {| id := JsDate.toISOString (clock Sample.world 0%nat) +:+ random Sample.world 0%nat;
         content := "Fixed, it";
         date := "2024-01-01T00:00:00.000Z";
         ticketNumber := Some "12 345 678";
         imageUrl := None |} ].
Proof.
  apply (csv_entries_are_well_formed Sample.strictHost Sample.csvRoundTrip Sample.world).
  - intros s t. discriminate.
  - intros n. vm_compute. split; discriminate.
  - apply csv_round_trip_value.
Defined.

Lemma csv_import_keeps_snapshot_sorted_witness :
  let l := [ {| id := JsDate.toISOString (clock Sample.world 0%nat)
                      +:+ random Sample.world 0%nat;
                content := "Fixed, it";
                date := "2024-01-01T00:00:00.000Z";
                ticketNumber := Some "12 345 678";
                imageUrl := None |} ] in
  let h' := fst (step Sample.strictHost Sample.plainLocale (Import l)
                   (mount Sample.strictHost INITIAL_ENTRIES) Sample.world) in
  Forall (wellDated Sample.strictHost) (entries h')
  /\ sortedDescending Sample.strictHost (entries h').
Proof.
  intros l.
  apply (csv_import_keeps_snapshot_sorted Sample.strictHost Sample.plainLocale
           (mount Sample.strictHost INITIAL_ENTRIES) Sample.csvRoundTrip
           Sample.world Sample.world l).
  - intros s t. discriminate.
  - intros n. vm_compute. split; discriminate.
  - intros n. vm_compute. split; discriminate.
  - split; [|reflexivity]. repeat constructor; eexists; vm_compute; reflexivity.
  - apply csv_round_trip_value.
Defined.

(* ================================================================== *)
(** * The ticket-number field, the list of entries and the prompt *)
(* ================================================================== *)

(** X17.  [formatTicketNumber] keeps the digits of what was typed, in their
    order, and formatting a formatted number changes nothing. *)
Theorem ticket_format_keeps_digits (value : string) :
  digitsOnly (formatTicketNumber value) = digitsOnly value
  /\ formatTicketNumber (formatTicketNumber value) = formatTicketNumber value.
Proof.
  split; [apply formatTicketNumber_digits | apply formatTicketNumber_idempotent].
Qed.

(** X18.  A formatted ticket number has its digits in groups of three
    counted from the right, with one space between two groups: counting the
    places from the right end and from 0, the character at place [k] is a
    space when [k mod 4 = 3] and a digit otherwise.  So it holds digits and
    spaces only, and for [n] digits typed it has [n + (n - 1) / 3]
    characters. *)
Theorem ticket_format_shape (value : string) :
  let r := formatTicketNumber value in
  let n := String.length (digitsOnly value) in
  allOf isDigitOrSpace r = true
  /\ String.length r = (n + (n - 1) / 3)%nat
  /\ forall k c,
       (k < String.length r)%nat ->
       String.get (String.length r - 1 - k) r = Some c ->
       ((k mod 4)%nat = 3%nat -> c = " "%char)
       /\ ((k mod 4)%nat <> 3%nat -> JsString.isDigit c = true).
Proof.
  intros r n. destruct (formatTicketNumber_shape value) as [Hall Hlen].
  split; [exact Hall|]. split; [exact Hlen|].
  intros k c. apply formatTicketNumber_places.
Qed.

Section Components.

Variable inherited : string -> bool.
Variable host : string -> option Z.
Variable toLocaleString : option Z -> string.
Variable toLocaleDateString : option Z -> string.

(** X19.  The compile button is shown on the card of an entry exactly when
    the entry has a ticket number that is not empty and not a name every
    object inherits, and at least two entries of the list bear it. *)
Theorem compile_button_shown_iff (l : list JournalEntry) (e : JournalEntry) :
  isCompilable inherited l e = true
  <-> exists t, ticketNumber e = Some t /\ JsString.truthy t = true
                /\ inherited t = false
                /\ (2 <= length (List.filter (hasTicket t) l))%nat.
Proof. apply isCompilable_spec. Qed.

(** X20.  Where the compile button is shown, pressing it and confirming
    compiles: [handleCompile] asks for the compilation of the entry's
    ticket number, and the snapshot has fewer entries afterwards. *)
Theorem compile_button_compiles (h : Hook) (e : JournalEntry) (w : World) :
  isCompilable inherited (entries h) e = true ->
  exists t,
    handleCompile true e = Some (Compile t)
    /\ (length (entries (fst (step host toLocaleString (Compile t) h w)))
        < length (entries h))%nat.
Proof.
  intros Hshown. apply isCompilable_spec in Hshown as (t & He & Ht & _ & Hn).
  exists t. split.
  - unfold handleCompile. now rewrite He, Ht.
  - destruct (compile_step host toLocaleString t h w Hn) as (compiled & _ & Hperm).
    rewrite (Permutation_length Hperm). cbn [length].
    pose proof (List.filter_length (hasTicket t) (entries h)). lia.
Qed.

(** X21.  What the card saves is sound: after any typing into the card of an
    entry whose date can be read, a save that goes through leaves every date
    of the snapshot readable and the snapshot sorted, and the content of the
    saved entry is not blank. *)
Theorem card_save_keeps_journal_sound
  (h : Hook) (e : JournalEntry) (edits : list Edit) (p : UpdateEntryPayload)
  (w : World) :
  validHost host -> rendered host h -> wellDated host e ->
  handleSave (typing host edits (openCard e)) = Some p ->
  let h' := fst (step host toLocaleString (Update (id e) p) h w) in
  Forall (wellDated host) (entries h')
  /\ sortedDescending host (entries h')
  /\ forall e', In e' (entries h') -> id e' = id e -> JsString.trim (content e') <> "".
Proof.
  intros Hhost Hh He Hsave h'.
  apply handleSave_payload in Hsave as [Hcontent ->].
  set (card := typing host edits (openCard e)) in *.
  assert (Hop : wellDatedOp host
                  (Update (id e)
                     {| updContent := Some (editedContent card);
                        updDate := Some (editedDate card);
                        updTicketNumber := Some (Some (editedTicketNumber card));
                        updImageUrl := None |})).
  { cbn [wellDatedOp updDate]. now apply typing_date. }
  destruct (rendered_sorted host h Hh) as [Hwd _].
  pose proof (updateEntry_wellDated host _ _ (entries h) Hop Hwd) as Hupd.
  subst h'. rewrite step_Update. cbn [fst render entries].
  split; [now apply sortedEntries_wellDated|].
  split; [now apply sortedEntries_sorted|].
  intros e' Hin Hid.
  apply (proj1 (SortFacts.sort_In _ _ _)) in Hin.
  unfold updateEntry in Hin. apply List.in_map_iff in Hin as (e0 & <- & _).
  destruct (String.eqb_spec (id e0) (id e)) as [_|Hne]; [exact Hcontent|].
  now destruct Hne.
Qed.

(** X24.  A duplicated entry can always be saved: after the duplication
    effect the submit button is enabled, and submitting the form as it is
    adds one entry, whose content holds the content of the original and
    which has the ticket number of the original and, when the original has
    an image, its image. *)
Theorem duplicate_then_submit_adds
  (e : JournalEntry) (form : Form) (prev : list JournalEntry) (w w' : World) :
  let form' := fst (duplicate host toLocaleDateString e form w) in
  submitDisabled (formContent form') (formImageUrl form') = false
  /\ exists new,
       fst (addEntry (submit form') prev w') = Some (new :: prev)
       /\ containsInOrder [content e] (content new)
       /\ ticketNumber new = Some (default "" (ticketNumber e))
       /\ (truthyOpt (imageUrl e) = true -> imageUrl new = imageUrl e).
Proof.
  intros form'.
  assert (Hink : JsString.truthy (JsString.trim (formContent form')) = true).
  { subst form'. unfold duplicate, mbind, M_bind. cbn [newDate fst mret M_ret formContent].
    apply (trim_ink "" _ "-"). reflexivity. }
  split; [unfold submitDisabled; now rewrite Hink|].
  exists (newEntry (submit form') w'). split; [|split; [|split]].
  - apply addEntry_nonblank. cbn [submit handleSubmit newContent].
    intros Hblank. now rewrite Hblank in Hink.
  - subst form'. unfold duplicate, mbind, M_bind.
    cbn [newDate fst mret M_ret formContent submit handleSubmit newEntry newContent content].
    replace ("--- Copied from entry on " +:+ toLocaleDateString (getTime host e)
             +:+ " ---" +:+ LF +:+ content e +:+ LF +:+ LF +:+ "--- Notes for "
             +:+ toLocaleDateString (Some (clock w 0%nat)) +:+ " ---" +:+ LF)
      with (("--- Copied from entry on " +:+ toLocaleDateString (getTime host e)
             +:+ " ---" +:+ LF) +:+ content e
            +:+ (LF +:+ LF +:+ "--- Notes for "
                 +:+ toLocaleDateString (Some (clock w 0%nat)) +:+ " ---" +:+ LF))
      by now rewrite !append_assoc.
    apply containsInOrder_one.
  - reflexivity.
  - intros Himage. subst form'. unfold duplicate, mbind, M_bind.
    cbn [newDate fst mret M_ret formImageUrl submit handleSubmit newEntry newImageUrl
         imageUrl].
    now rewrite Himage.
Qed.

(** X22.  The prompt holds the content of every entry it is given, in the
    order of the entries, and the question after them. *)
Theorem prompt_holds_every_entry (question : string) (l : list JournalEntry) :
  containsInOrder (List.map content l ++ [question])%list
    (buildPrompt host toLocaleDateString question l).
Proof. apply buildPrompt_contains. Qed.

End Components.

Lemma compile_button_compiles_witness :
  let h := render Sample.strictHost
             (Sample.entry "5" "2024-06-01" "Second visit." (Some "2 382 182")
              :: INITIAL_ENTRIES) in
  let e := Sample.entry "5" "2024-06-01" "Second visit." (Some "2 382 182") in
  exists t,
    handleCompile true e = Some (Compile t)
    /\ (length (entries (fst (step Sample.strictHost Sample.plainLocale (Compile t) h
                               Sample.world)))
        < length (entries h))%nat.
Proof.
  intros h e.
  apply (compile_button_compiles (fun t => String.eqb t "constructor")
           Sample.strictHost Sample.plainLocale h e Sample.world).
  vm_compute. reflexivity.
Defined.

Lemma card_save_keeps_journal_sound_witness :
  let e := Sample.entry "1" "2023-06-05T10:00:00.000Z" "Fixed the XYZ model."
             (Some "2 382 182") in
  let p := {| updContent := Some "Replaced the board.";
              updDate := Some "2024-03-01T00:00:00.000Z";
              updTicketNumber := Some (Some "2 382 183");
              updImageUrl := None |} in
  let h' := fst (step Sample.strictHost Sample.plainLocale (Update (id e) p)
                   (mount Sample.strictHost INITIAL_ENTRIES) Sample.world) in
  Forall (wellDated Sample.strictHost) (entries h')
  /\ sortedDescending Sample.strictHost (entries h')
  /\ forall e', In e' (entries h') -> id e' = id e -> JsString.trim (content e') <> "".
Proof.
  intros e p.
  apply (card_save_keeps_journal_sound Sample.strictHost Sample.plainLocale
           (mount Sample.strictHost INITIAL_ENTRIES) e
           [TypeContent "Replaced the board."; PickDate "2024-03-01";
            TypeTicketNumber "ticket 2382183"; PickDate "tomorrow"]
           p Sample.world).
  - intros s t. discriminate.
  - split; [|reflexivity]. repeat constructor; eexists; vm_compute; reflexivity.
  - eexists. vm_compute. reflexivity.
  - vm_compute. reflexivity.
Defined.

Lemma csv_file_reads_back_witness :
  exists l,
    fst (parseCSV Sample.strictHost
           (csvFile [("2024-01-01", "Fixed, it"); ("someday", "Ticket: #12 345")])
           Sample.world)
    = Returns l
    /\ Forall2 (readAs Sample.strictHost)
         [("2024-01-01", "Fixed, it"); ("someday", "Ticket: #12 345")] l.
Proof.
  apply (csv_file_reads_back Sample.strictHost).
  repeat constructor.
Defined.
